(** * tree.py: the directory-tree renderer, embedded and verified

    A shallow embedding of [src/tree/tree.py] (classes [TreeConfig] and
    [TreeGenerator]).  Python exceptions are the [Raise] case of a result
    type, the two counters of a [TreeGenerator] instance are threaded as an
    explicit state, and the file system the program reads is a record of
    the answers that [pathlib] gives about each path; it does not change
    while the tree is rendered. *)

From Stdlib Require Import ZArith List String Ascii Bool Lia.
From Stdlib Require Import Sorted Permutation DecimalString OctalString.
Import ListNotations.

Open Scope string_scope.
Open Scope list_scope.
Open Scope Z_scope.

(** Concatenation of strings, [+] in Python. *)
Infix "+++" := String.append (right associativity, at level 60).

(* ================================================================== *)
(** ** Exceptions and results *)

(** The exceptions that the modelled code can meet.  [OSError] stands for
    any operating-system error that is neither of the two subclasses
    listed; [RecursionError] is what CPython raises when the call stack
    is exhausted. *)
Inductive exn : Type :=
| PermissionError
| FileNotFoundError
| OSError
| ValueError
| RecursionError.

Inductive result (A : Type) : Type :=
| Ok (a : A)
| Raise (e : exn).

Arguments Ok {A} a.
Arguments Raise {A} e.

Definition bind {A B : Type} (m : result A) (k : A -> result B) : result B :=
  match m with
  | Ok a => k a
  | Raise e => Raise e
  end.

Declare Scope result_scope.
Delimit Scope result_scope with result.
Notation "x <- m ;; k" := (bind m (fun x => k))
  (at level 100, m at next level, right associativity) : result_scope.
Notation "' p <- m ;; k" := (bind m (fun p => k))
  (at level 100, p pattern, m at next level, right associativity) : result_scope.
Open Scope result_scope.

(** [try: ... except: pass], with the value used when the body raised. *)
Definition try_except {A : Type} (m : result A) (default : A) : A :=
  match m with
  | Ok a => a
  | Raise _ => default
  end.

(** A list comprehension whose element function and condition may raise:
    elements are visited left to right and the first exception wins. *)
Fixpoint mapM {A B : Type} (f : A -> result B) (l : list A) : result (list B) :=
  match l with
  | [] => Ok []
  | x :: l' => y <- f x ;; ys <- mapM f l' ;; Ok (y :: ys)
  end.

Fixpoint filterM {A : Type} (f : A -> result bool) (l : list A) : result (list A) :=
  match l with
  | [] => Ok []
  | x :: l' =>
      b <- f x ;; ys <- filterM f l' ;; Ok (if b then x :: ys else ys)
  end.

(* ================================================================== *)
(** ** Strings

    A Python [str] is modelled by a [string] holding its UTF-8 bytes; the
    byte order of [String.compare] is the code-point order of Python. *)

Definition NL : string := String (ascii_of_nat 10) "".

(** [s.startswith(p)] *)
Definition startswith (s p : string) : bool := String.prefix p s.

(** [c in s] for a one-character [c] *)
Fixpoint contains (c : ascii) (s : string) : bool :=
  match s with
  | "" => false
  | String a s' => Ascii.eqb a c || contains c s'
  end.

(** [s.rstrip(c)]: every trailing occurrence of [c] is removed. *)
Fixpoint rstrip (c : ascii) (s : string) : string :=
  match s with
  | "" => ""
  | String a s' =>
      match rstrip c s' with
      | "" => if Ascii.eqb a c then "" else String a ""
      | r => String a r
      end
  end.

Definition lower_ascii (a : ascii) : ascii :=
  let n := nat_of_ascii a in
  if ((65 <=? n) && (n <=? 90))%nat then ascii_of_nat (n + 32) else a.

(** Lower-casing of the ASCII letters; it instantiates [str.lower] in
    the examples. *)
Fixpoint ascii_lower (s : string) : string :=
  match s with
  | "" => ""
  | String a s' => String (lower_ascii a) (ascii_lower s')
  end.

(** [s[-n:]] for [n > 0] *)
Definition last_chars (n : nat) (s : string) : string :=
  substring (String.length s - n) n s.

(** [str(n)] for a non-negative integer *)
Definition str_of_Z (z : Z) : string :=
  NilZero.string_of_uint (N.to_uint (Z.to_N z)).

(** Left padding with spaces up to a width, as the format spec [6] does. *)
Fixpoint spaces (n : nat) : string :=
  match n with
  | O => ""
  | S n' => String " " (spaces n')
  end.

Definition pad_left (width : nat) (s : string) : string :=
  spaces (width - String.length s) +++ s.

(* ================================================================== *)
(** ** Paths and the file system *)

(** An absolute POSIX path, as the list of its components below [/].
    [main] resolves the root before the walk starts and every entry is
    [directory / name], so all paths met are of this form. *)
Definition Path : Type := list string.

(** [path.name] *)
Definition name (p : Path) : string := last p "".

(** [str(path)] *)
Definition path_str (p : Path) : string := "/" +++ String.concat "/" p.

(** [directory / child] *)
Definition joinpath (directory : Path) (child : string) : Path :=
  directory ++ [child].

(** [path.parent] *)
Definition parent (p : Path) : Path := removelast p.

(** [path.relative_to(base)]: the components of [path] below [base], or
    [ValueError] when [path] does not lie under [base]. *)
Fixpoint relative_to (path base : Path) : result (list string) :=
  match base with
  | [] => Ok path
  | b :: base' =>
      match path with
      | [] => Raise ValueError
      | c :: path' =>
          if String.eqb c b then relative_to path' base' else Raise ValueError
      end
  end.

(** [str] of a relative path: the empty one prints as a dot. *)
Definition rel_str (p : list string) : string :=
  match p with
  | [] => "."
  | _ => String.concat "/" p
  end.

(** What a path resolves to when links are followed: a directory, a
    regular file, or neither (a dangling link, a socket, a FIFO, a
    device, a path that is gone). *)
Inductive kind : Type := KDir | KFile | KOther.

Record stat_result : Type := {
  st_size : Z;
  st_mtime : Z;
  st_mode : Z
}.

(** The answers of the operating system.  [fs_listdir] gives the names of
    a directory in the order the system lists them.  [st_mtime] is a
    float in Python; only its order is used, and it is kept here as an
    integer count of the clock's ticks. *)
Record FileSystem : Type := {
  fs_kind : Path -> kind;
  fs_islink : Path -> bool;
  fs_stat : Path -> result stat_result;
  fs_listdir : Path -> result (list string)
}.

(* ================================================================== *)
(** ** Configuration and counters *)

Inductive sort_by_t : Type := ByName | BySize | ByModified.

(** [class TreeConfig] *)
Record TreeConfig : Type := {
  max_depth : option Z;
  max_files : option Z;
  dirs_only : bool;
  files_only : bool;
  show_hidden : bool;
  follow_links : bool;
  use_gitignore : bool;
  custom_ignore : list string;
  sort_by : sort_by_t;
  reverse_sort : bool;
  show_size : bool;
  show_permissions : bool;
  full_path : bool;
  (** a Python set, filled by the constructor of [TreeGenerator] from
      [.gitignore]; the list is the order in which the set is iterated *)
  gitignore_patterns : list string
}.

(** The mutable fields of a [TreeGenerator] instance. *)
Record Counters : Type := {
  file_count : Z;
  dir_count : Z
}.

Definition PIPE : string := "│   ".
Definition TEE : string := "├── ".
Definition ELBOW : string := "└── ".
Definition BLANK : string := "    ".

(** A matcher for the fragment of shell globs made of literal characters,
    [?] and [*]; it instantiates [fnmatch.fnmatch] in the examples. *)
Fixpoint glob_chars (pat : list ascii) : list ascii -> bool :=
  match pat with
  | [] => fun s => match s with [] => true | _ => false end
  | c :: pat' =>
      if Ascii.eqb c "*" then
        fix star (s : list ascii) : bool :=
          glob_chars pat' s ||
          match s with
          | [] => false
          | _ :: s' => star s'
          end
      else if Ascii.eqb c "?" then
        fun s => match s with [] => false | _ :: s' => glob_chars pat' s' end
      else
        fun s =>
          match s with
          | [] => false
          | a :: s' => Ascii.eqb a c && glob_chars pat' s'
          end
  end.

Definition glob (name pat : string) : bool :=
  glob_chars (list_ascii_of_string pat) (list_ascii_of_string name).

(* ================================================================== *)
(** ** File systems given by a table

    The concrete file systems of the examples are tables from paths to
    what the system answers there; a path without a row does not
    exist. *)

Record node : Type := {
  nd_kind : kind;
  nd_islink : bool;
  nd_stat : result stat_result;
  nd_listdir : result (list string)
}.

Fixpoint path_eqb (p q : Path) : bool :=
  match p, q with
  | [], [] => true
  | a :: p', b :: q' => String.eqb a b && path_eqb p' q'
  | _, _ => false
  end.

Fixpoint lookup (t : list (Path * node)) (p : Path) : option node :=
  match t with
  | [] => None
  | (q, nd) :: t' => if path_eqb p q then Some nd else lookup t' p
  end.

Definition missing : node :=
  {| nd_kind := KOther; nd_islink := false;
     nd_stat := Raise FileNotFoundError;
     nd_listdir := Raise FileNotFoundError |}.

Definition table_fs (t : list (Path * node)) : FileSystem :=
  let at_path p := match lookup t p with Some nd => nd | None => missing end in
  {| fs_kind := fun p => nd_kind (at_path p);
     fs_islink := fun p => nd_islink (at_path p);
     fs_stat := fun p => nd_stat (at_path p);
     fs_listdir := fun p => nd_listdir (at_path p) |}.

Definition a_stat (size mtime : Z) : result stat_result :=
  Ok {| st_size := size; st_mtime := mtime; st_mode := 33188 |}.

(** a regular file *)
Definition file_node (size mtime : Z) : node :=
  {| nd_kind := KFile; nd_islink := false;
     nd_stat := a_stat size mtime;
     nd_listdir := Raise OSError |}.

(** a directory that lists [names] *)
Definition dir_node (names : list string) : node :=
  {| nd_kind := KDir; nd_islink := false;
     nd_stat := Ok {| st_size := 4096; st_mtime := 0; st_mode := 16877 |};
     nd_listdir := Ok names |}.

(** a symbolic link to a directory that lists [names] *)
Definition dirlink_node (names : list string) : node :=
  {| nd_kind := KDir; nd_islink := true;
     nd_stat := Ok {| st_size := 4096; st_mtime := 0; st_mode := 16877 |};
     nd_listdir := Ok names |}.

(** a symbolic link whose target is gone *)
Definition dangling_node : node :=
  {| nd_kind := KOther; nd_islink := true;
     nd_stat := Raise FileNotFoundError;
     nd_listdir := Raise FileNotFoundError |}.

(** [TreeConfig()]: the defaults of the constructor *)
Definition default_config : TreeConfig :=
  {| max_depth := None; max_files := None;
     dirs_only := false; files_only := false;
     show_hidden := false; follow_links := false;
     use_gitignore := false; custom_ignore := [];
     sort_by := ByName; reverse_sort := false;
     show_size := false; show_permissions := false;
     full_path := false; gitignore_patterns := [] |}.

(** The tree of the round-trip scenario: [/r] holds [a.txt] (10 bytes),
    [b.txt] (2048 bytes) and [sub/], which holds [c.txt]. *)
Definition scenario_fs : FileSystem :=
  table_fs
    [ (["r"], dir_node ["b.txt"; "sub"; "a.txt"]);
      (["r"; "a.txt"], file_node 10 3);
      (["r"; "b.txt"], file_node 2048 1);
      (["r"; "sub"], dir_node ["c.txt"]);
      (["r"; "sub"; "c.txt"], file_node 5 2) ].

(** [--gitignore] with one loaded pattern that holds a slash *)
Definition gitignore_config : TreeConfig :=
  {| max_depth := None; max_files := None;
     dirs_only := false; files_only := false;
     show_hidden := false; follow_links := false;
     use_gitignore := true; custom_ignore := [];
     sort_by := ByName; reverse_sort := false;
     show_size := false; show_permissions := false;
     full_path := false; gitignore_patterns := ["build/out"] |}.

(** [--sort-by modified] *)
Definition modified_config : TreeConfig :=
  {| max_depth := None; max_files := None;
     dirs_only := false; files_only := false;
     show_hidden := false; follow_links := false;
     use_gitignore := false; custom_ignore := [];
     sort_by := ByModified; reverse_sort := false;
     show_size := false; show_permissions := false;
     full_path := false; gitignore_patterns := [] |}.

(** [/r] holds a regular file and a symbolic link whose target is gone. *)
Definition dangling_fs : FileSystem :=
  table_fs
    [ (["r"], dir_node ["a.txt"; "gone"]);
      (["r"; "a.txt"], file_node 10 3);
      (["r"; "gone"], dangling_node) ].

(** Listing [/r] fails with an input/output error; listing [/s] is not
    permitted. *)
Definition unreadable_fs : FileSystem :=
  table_fs
    [ (["r"], {| nd_kind := KDir; nd_islink := false;
                 nd_stat := a_stat 4096 0;
                 nd_listdir := Raise OSError |});
      (["s"], {| nd_kind := KDir; nd_islink := false;
                 nd_stat := a_stat 4096 0;
                 nd_listdir := Raise PermissionError |}) ].

(** [--sort-by size --reverse] *)
Definition size_reverse_config : TreeConfig :=
  {| max_depth := None; max_files := None;
     dirs_only := false; files_only := false;
     show_hidden := false; follow_links := false;
     use_gitignore := false; custom_ignore := [];
     sort_by := BySize; reverse_sort := true;
     show_size := false; show_permissions := false;
     full_path := false; gitignore_patterns := [] |}.

(** [--depth 1] *)
Definition depth1_config : TreeConfig :=
  {| max_depth := Some 1; max_files := None;
     dirs_only := false; files_only := false;
     show_hidden := false; follow_links := false;
     use_gitignore := false; custom_ignore := [];
     sort_by := ByName; reverse_sort := false;
     show_size := false; show_permissions := false;
     full_path := false; gitignore_patterns := [] |}.

(** [--max-files 1] *)
Definition limit1_config : TreeConfig :=
  {| max_depth := None; max_files := Some 1;
     dirs_only := false; files_only := false;
     show_hidden := false; follow_links := false;
     use_gitignore := false; custom_ignore := [];
     sort_by := ByName; reverse_sort := false;
     show_size := false; show_permissions := false;
     full_path := false; gitignore_patterns := [] |}.

(** [--max-files 3] *)
Definition limit3_config : TreeConfig :=
  {| max_depth := None; max_files := Some 3;
     dirs_only := false; files_only := false;
     show_hidden := false; follow_links := false;
     use_gitignore := false; custom_ignore := [];
     sort_by := ByName; reverse_sort := false;
     show_size := false; show_permissions := false;
     full_path := false; gitignore_patterns := [] |}.

(** The directory of the limit scenario: five files side by side. *)
Definition flat_fs : FileSystem :=
  table_fs
    [ (["r"], dir_node ["f1"; "f2"; "f3"; "f4"; "f5"]);
      (["r"; "f1"], file_node 1 1);
      (["r"; "f2"], file_node 1 1);
      (["r"; "f3"], file_node 1 1);
      (["r"; "f4"], file_node 1 1);
      (["r"; "f5"], file_node 1 1) ].

(** [/r] holds [sub/] with two files, and a file of its own. *)
Definition nested_fs : FileSystem :=
  table_fs
    [ (["r"], dir_node ["sub"; "z.txt"]);
      (["r"; "sub"], dir_node ["c.txt"; "d.txt"]);
      (["r"; "sub"; "c.txt"], file_node 1 1);
      (["r"; "sub"; "d.txt"], file_node 1 1);
      (["r"; "z.txt"], file_node 1 1) ].

(** [/r] holds [link], a symbolic link to a directory with one file, and
    a file of its own. *)
Definition link_fs : FileSystem :=
  table_fs
    [ (["r"], dir_node ["link"; "z.txt"]);
      (["r"; "link"], dirlink_node ["inner.txt"]);
      (["r"; "link"; "inner.txt"], file_node 1 1);
      (["r"; "z.txt"], file_node 1 1) ].

(** [--files-only --sort-by size] *)
Definition files_by_size_config : TreeConfig :=
  {| max_depth := None; max_files := None;
     dirs_only := false; files_only := true;
     show_hidden := false; follow_links := false;
     use_gitignore := false; custom_ignore := [];
     sort_by := BySize; reverse_sort := false;
     show_size := false; show_permissions := false;
     full_path := false; gitignore_patterns := [] |}.

(** [--all] *)
Definition all_config : TreeConfig :=
  {| max_depth := None; max_files := None;
     dirs_only := false; files_only := false;
     show_hidden := true; follow_links := false;
     use_gitignore := false; custom_ignore := [];
     sort_by := ByName; reverse_sort := false;
     show_size := false; show_permissions := false;
     full_path := false; gitignore_patterns := [] |}.

(** [--size --permissions] *)
Definition annotated_config : TreeConfig :=
  {| max_depth := None; max_files := None;
     dirs_only := false; files_only := false;
     show_hidden := false; follow_links := false;
     use_gitignore := false; custom_ignore := [];
     sort_by := ByName; reverse_sort := false;
     show_size := true; show_permissions := true;
     full_path := false; gitignore_patterns := [] |}.

(** The directory of the hidden-file scenario. *)
Definition hidden_fs : FileSystem :=
  table_fs
    [ (["r"], dir_node ["visible.txt"; ".secret"]);
      (["r"; ".secret"], file_node 1 1);
      (["r"; "visible.txt"], file_node 1 1) ].

(** [--gitignore] with loaded patterns that hold no slash once their
    trailing slashes are stripped *)
Definition plain_gitignore_config : TreeConfig :=
  {| max_depth := None; max_files := None;
     dirs_only := false; files_only := false;
     show_hidden := false; follow_links := false;
     use_gitignore := true; custom_ignore := [];
     sort_by := ByName; reverse_sort := false;
     show_size := false; show_permissions := false;
     full_path := false; gitignore_patterns := ["*.pyc"; "build/"] |}.

(** [--dirs-only --files-only] *)
Definition both_filters_config : TreeConfig :=
  {| max_depth := None; max_files := None;
     dirs_only := true; files_only := true;
     show_hidden := false; follow_links := false;
     use_gitignore := false; custom_ignore := [];
     sort_by := ByName; reverse_sort := false;
     show_size := false; show_permissions := false;
     full_path := false; gitignore_patterns := [] |}.

(* ================================================================== *)
(** ** The command line and the process *)

(** The namespace that [parse_arguments] returns: one field per option,
    named by its destination. *)
Record Args : Type := {
  arg_path : string;
  arg_depth : option Z;
  arg_max_files : option Z;
  arg_dirs_only : bool;
  arg_files_only : bool;
  arg_show_hidden : bool;
  arg_follow_links : bool;
  arg_use_gitignore : bool;
  arg_ignore : list string;
  arg_sort_by : sort_by_t;
  arg_reverse_sort : bool;
  arg_show_size : bool;
  arg_show_permissions : bool;
  arg_full_path : bool
}.

(** The configuration that [main] fills from the arguments: a fresh
    [TreeConfig()], whose set of patterns is empty, with every other
    field assigned. *)
Definition config_of_args (args : Args) : TreeConfig :=
  {| max_depth := arg_depth args;
     max_files := arg_max_files args;
     dirs_only := arg_dirs_only args;
     files_only := arg_files_only args;
     show_hidden := arg_show_hidden args;
     follow_links := arg_follow_links args;
     use_gitignore := arg_use_gitignore args;
     custom_ignore := arg_ignore args;
     sort_by := arg_sort_by args;
     reverse_sort := arg_reverse_sort args;
     show_size := arg_show_size args;
     show_permissions := arg_show_permissions args;
     full_path := arg_full_path args;
     gitignore_patterns := [] |}.

(** [config.gitignore_patterns] replaced, every other field kept. *)
Definition with_patterns (c : TreeConfig) (patterns : list string) : TreeConfig :=
  {| max_depth := max_depth c;
     max_files := max_files c;
     dirs_only := dirs_only c;
     files_only := files_only c;
     show_hidden := show_hidden c;
     follow_links := follow_links c;
     use_gitignore := use_gitignore c;
     custom_ignore := custom_ignore c;
     sort_by := sort_by c;
     reverse_sort := reverse_sort c;
     show_size := show_size c;
     show_permissions := show_permissions c;
     full_path := full_path c;
     gitignore_patterns := patterns |}.

(** [s.add(x)] on the list that stands for a set: an element already
    there is not added again.  Where a new element goes in the order of
    iteration is up to Python; the end is one choice. *)
Definition set_add (x : string) (s : list string) : list string :=
  if existsb (String.eqb x) s then s else s ++ [x].

(** How a process ends: [sys.exit(code)] or the end of [main] (code 0),
    or an exception that nothing caught. *)
Inductive exit : Type :=
| Exit (code : Z)
| Uncaught (e : exn).

(** What a run of the program leaves behind. *)
Record process : Type := {
  stdout : string;
  stderr : string;
  status : exit
}.

(** [print(s)] appends the text and a newline. *)
Definition print (out s : string) : string := out +++ s +++ NL.

(** The white space of ASCII, which [str.isspace] accepts. *)
Definition ascii_space (a : ascii) : bool :=
  let n := nat_of_ascii a in
  ((9 <=? n) && (n <=? 13) || (28 <=? n) && (n <=? 32))%nat.

Fixpoint ascii_lstrip (s : string) : string :=
  match s with
  | "" => ""
  | String a s' => if ascii_space a then ascii_lstrip s' else s
  end.

Fixpoint ascii_rstrip (s : string) : string :=
  match s with
  | "" => ""
  | String a s' =>
      match ascii_rstrip s' with
      | "" => if ascii_space a then "" else String a ""
      | r => String a r
      end
  end.

(** Stripping of ASCII white space at both ends; it instantiates
    [str.strip] in the examples. *)
Definition ascii_strip (s : string) : string := ascii_rstrip (ascii_lstrip s).

(** The arguments of [tree.py /r]: every option at its default. *)
Definition plain_args : Args :=
  {| arg_path := "/r"; arg_depth := None; arg_max_files := None;
     arg_dirs_only := false; arg_files_only := false;
     arg_show_hidden := false; arg_follow_links := false;
     arg_use_gitignore := false; arg_ignore := [];
     arg_sort_by := ByName; arg_reverse_sort := false;
     arg_show_size := false; arg_show_permissions := false;
     arg_full_path := false |}.

(** The arguments of [tree.py /r --gitignore]. *)
Definition gitignore_args : Args :=
  {| arg_path := "/r"; arg_depth := None; arg_max_files := None;
     arg_dirs_only := false; arg_files_only := false;
     arg_show_hidden := false; arg_follow_links := false;
     arg_use_gitignore := true; arg_ignore := [];
     arg_sort_by := ByName; arg_reverse_sort := false;
     arg_show_size := false; arg_show_permissions := false;
     arg_full_path := false |}.

(** The lines of a [.gitignore]: a comment, a blank line, a pattern. *)
Definition gitignore_lines : list string :=
  ["# build output" +++ NL; "   " +++ NL; "build/" +++ NL].

(** [--dirs-only] *)
Definition dirs_only_config : TreeConfig :=
  {| max_depth := None; max_files := None;
     dirs_only := true; files_only := false;
     show_hidden := false; follow_links := false;
     use_gitignore := false; custom_ignore := [];
     sort_by := ByName; reverse_sort := false;
     show_size := false; show_permissions := false;
     full_path := false; gitignore_patterns := [] |}.

(** [--files-only] *)
Definition files_only_config : TreeConfig :=
  {| max_depth := None; max_files := None;
     dirs_only := false; files_only := true;
     show_hidden := false; follow_links := false;
     use_gitignore := false; custom_ignore := [];
     sort_by := ByName; reverse_sort := false;
     show_size := false; show_permissions := false;
     full_path := false; gitignore_patterns := [] |}.

(** [--permissions] *)
Definition permissions_config : TreeConfig :=
  {| max_depth := None; max_files := None;
     dirs_only := false; files_only := false;
     show_hidden := false; follow_links := false;
     use_gitignore := false; custom_ignore := [];
     sort_by := ByName; reverse_sort := false;
     show_size := false; show_permissions := true;
     full_path := false; gitignore_patterns := [] |}.

Section TreeGenerator.

(** [fnmatch.fnmatch name pattern] of the Python library: a total
    predicate on two strings.  The development holds for any such
    matcher. *)
Variable fnmatch : string -> string -> bool.

(** [s.lower()] of Python strings, likewise. *)
Variable lower : string -> string.

Variable fs : FileSystem.

(** [Path.cwd()] *)
Variable cwd : Path.

(** [self.config] *)
Variable config : TreeConfig.

Definition is_dir (p : Path) : bool :=
  match fs_kind fs p with KDir => true | _ => false end.

Definition is_file (p : Path) : bool :=
  match fs_kind fs p with KFile => true | _ => false end.

Definition is_symlink (p : Path) : bool := fs_islink fs p.

Definition stat (p : Path) : result stat_result := fs_stat fs p.

(** [directory.iterdir()] *)
Definition iterdir (directory : Path) : result (list Path) :=
  names <- fs_listdir fs directory ;; Ok (map (joinpath directory) names).

(** The body of the loop over [self.config.gitignore_patterns]: [Ok true]
    is [return True], [Ok false] lets the loop go on. *)
Definition gitignore_step (path : Path) (pattern : string) : result bool :=
  let pattern := rstrip "/" pattern in
  if fnmatch (name path) pattern then Ok true
  else if contains "/" pattern then
    rel <- relative_to path cwd ;;
    Ok (fnmatch (rel_str rel) pattern)
  else Ok false.

Fixpoint gitignore_loop (path : Path) (patterns : list string) : result bool :=
  match patterns with
  | [] => Ok false
  | pattern :: rest =>
      hit <- gitignore_step path pattern ;;
      if hit then Ok true else gitignore_loop path rest
  end.

(** [TreeGenerator._should_ignore] *)
Definition _should_ignore (path : Path) : result bool :=
  let name := name path in
  if negb (show_hidden config) && startswith name "." then Ok true
  else if existsb (fnmatch name) (custom_ignore config) then Ok true
  else if use_gitignore config then gitignore_loop path (gitignore_patterns config)
  else Ok false.

(** ["%6.1f" % (num / den)] for [0 <= num] and [0 < den]: one decimal,
    the tie rounded to the even digit, right-aligned in six columns.  The
    source computes in doubles; the quotients it forms are exact there for
    every size below 2^53, and this is their exact value. *)
Definition format_6_1f (num den : Z) : string :=
  let q := (10 * num) / den in
  let r := (10 * num) mod den in
  let tenths :=
    if 2 * r <? den then q
    else if den <? 2 * r then q + 1
    else if Z.even q then q else q + 1 in
  pad_left 6 (str_of_Z (tenths / 10) +++ "." +++ str_of_Z (tenths mod 10)).

(** The loop of [_format_size]; [den] is the power of 1024 by which
    [size] has been divided so far. *)
Fixpoint format_size_loop (units : list string) (size den : Z) : string :=
  match units with
  | [] => format_6_1f size den +++ " PB"
  | unit :: rest =>
      if size <? 1024 * den then format_6_1f size den +++ " " +++ unit
      else format_size_loop rest size (1024 * den)
  end.

(** [TreeGenerator._format_size] *)
Definition _format_size (size : Z) : string :=
  format_size_loop ["B"; "KB"; "MB"; "GB"; "TB"] size 1.

(** The values a sort key takes: a number (size, time stamp) or a
    string (lower-cased name). *)
Inductive sortkey : Type :=
| KeyNum (z : Z)
| KeyStr (s : string).

(** The order Python uses on keys.  One key function gives keys of one
    shape; a number is put before a string to make the order total. *)
Definition key_leb (a b : sortkey) : bool :=
  match a, b with
  | KeyNum x, KeyNum y => x <=? y
  | KeyStr x, KeyStr y => String.leb x y
  | KeyNum _, KeyStr _ => true
  | KeyStr _, KeyNum _ => false
  end.

(** [TreeGenerator._get_sort_key]: the lambda it returns.  [p.stat()] may
    raise, and nothing here catches it. *)
Definition _get_sort_key : Path -> result sortkey :=
  match sort_by config with
  | BySize =>
      fun p => if is_file p then s <- stat p ;; Ok (KeyNum (st_size s))
               else Ok (KeyNum 0)
  | ByModified => fun p => s <- stat p ;; Ok (KeyNum (st_mtime s))
  | ByName => fun p => Ok (KeyStr (lower (name p)))
  end.

(** The order between two keyed elements for [reverse=False] and for
    [reverse=True]. *)
Definition keyed_leb (reverse : bool) (x y : sortkey * Path) : bool :=
  if reverse then key_leb (fst y) (fst x) else key_leb (fst x) (fst y).

(** Python's sort is stable, also with [reverse=True]: an element goes in
    front of the first one it does not have to follow. *)
Fixpoint insert_keyed (reverse : bool) (x : sortkey * Path)
    (l : list (sortkey * Path)) : list (sortkey * Path) :=
  match l with
  | [] => [x]
  | y :: l' =>
      if keyed_leb reverse x y then x :: y :: l'
      else y :: insert_keyed reverse x l'
  end.

Fixpoint sort_keyed (reverse : bool) (l : list (sortkey * Path))
    : list (sortkey * Path) :=
  match l with
  | [] => []
  | x :: l' => insert_keyed reverse x (sort_keyed reverse l')
  end.

(** [sorted(l, key=key, reverse=reverse)] and [l.sort(key=..., reverse=...)]:
    the key of every element is computed first, in list order, and an
    exception raised by a key leaves the sort. *)
Definition sorted (key : Path -> result sortkey) (reverse : bool)
    (l : list Path) : result (list Path) :=
  keyed <- mapM (fun p => k <- key p ;; Ok (k, p)) l ;;
  Ok (map snd (sort_keyed reverse keyed)).

(** [TreeGenerator._get_entries].  Only [PermissionError] is caught, and
    the [try] block covers the listing and the calls of
    [_should_ignore]. *)
Definition _get_entries (directory : Path) : result (list Path) :=
  match
    (all <- iterdir directory ;;
     filterM (fun e => b <- _should_ignore e ;; Ok (negb b)) all)
  with
  | Raise PermissionError => Ok []
  | Raise e => Raise e
  | Ok entries =>
      let entries :=
        if dirs_only config then filter is_dir entries
        else if files_only config then filter is_file entries
        else entries in
      entries <- sorted _get_sort_key (reverse_sort config) entries ;;
      if negb (files_only config) && negb (dirs_only config) then
        let dirs := filter is_dir entries in
        let files := filter is_file entries in
        ds <- sorted _get_sort_key (reverse_sort config) dirs ;;
        fs <- sorted _get_sort_key (reverse_sort config) files ;;
        Ok (ds ++ fs)
      else Ok entries
  end.

(** [TreeGenerator._format_entry].  Both [try] blocks have a bare
    [except: pass]. *)
Definition _format_entry (path : Path) : string :=
  let name := if full_path config then path_str path else name path in
  let name := if is_dir path then name +++ "/" else name in
  let name :=
    if show_size config && is_file path then
      try_except
        (s <- stat path ;;
         Ok (name +++ " (" +++ _format_size (st_size s) +++ ")"))
        name
    else name in
  let name :=
    if show_permissions config then
      try_except
        (s <- stat path ;;
         Ok ("[" +++ last_chars 3 (OctalString.of_Z (st_mode s)) +++ "] " +++ name))
        name
    else name in
  name.

(** One line of the rendered block, with the place it was emitted from:
    the directory being listed, the prefix and depth of that call of
    [generate], the index of the entry in the list of [_get_entries].
    [ln_entry] is [None] for the line that reports the file limit. *)
Record line : Type := {
  ln_text : string;
  ln_entry : option Path;
  ln_dir : Path;
  ln_prefix : string;
  ln_connector : string;
  ln_index : Z;
  ln_depth : Z
}.

Definition LIMIT_TEXT : string := "... (file limit reached)".

(** [self.config.max_depth is not None and depth >= self.config.max_depth] *)
Definition depth_reached (depth : Z) : bool :=
  match max_depth config with
  | Some k => k <=? depth
  | None => false
  end.

(** [self.config.max_files is not None and
     self.file_count >= self.config.max_files] *)
Definition limit_reached (st : Counters) : bool :=
  match max_files config with
  | Some m => m <=? file_count st
  | None => false
  end.

(** The update of the counters after an entry's line. *)
Definition count_entry (entry : Path) (st : Counters) : Counters :=
  if is_dir entry
  then {| file_count := file_count st; dir_count := dir_count st + 1 |}
  else {| file_count := file_count st + 1; dir_count := dir_count st |}.

(** What a call of [generate] gives back: the text it returns, the lines
    of that text one by one, and the counters after the call. *)
Definition block : Type := (string * list line * Counters)%type.

Section Loop.

(** the recursive call [self.generate] *)
Variable self_generate : Path -> string -> Z -> Counters -> result block.

Variables (directory : Path) (prefix : string) (depth : Z).

(** [len(entries)] *)
Variable n : Z.

(** The [for i, entry in enumerate(entries)] loop of [generate], from
    index [i] on; it gives the strings appended to [output], the lines
    they hold, and the counters. *)
Fixpoint generate_loop (i : Z) (entries : list Path) (st : Counters)
    : result (list string * list line * Counters) :=
  match entries with
  | [] => Ok ([], [], st)
  | entry :: rest =>
      if limit_reached st then
        let text := prefix +++ ELBOW +++ LIMIT_TEXT in
        Ok ([text],
            [{| ln_text := text; ln_entry := None; ln_dir := directory;
                ln_prefix := prefix; ln_connector := ELBOW;
                ln_index := i; ln_depth := depth |}],
            st)
      else
        let is_last := i =? n - 1 in
        let connector := if is_last then ELBOW else TEE in
        let formatted_name := _format_entry entry in
        let text := prefix +++ connector +++ formatted_name in
        let here :=
          {| ln_text := text; ln_entry := Some entry; ln_dir := directory;
             ln_prefix := prefix; ln_connector := connector;
             ln_index := i; ln_depth := depth |} in
        let st := count_entry entry st in
        '(subtree, below, st) <-
          (if is_dir entry && (follow_links config || negb (is_symlink entry))
           then
             let extension := if is_last then BLANK else PIPE in
             self_generate entry (prefix +++ extension) (depth + 1) st
           else Ok ("", [], st)) ;;
        '(output, after, st) <- generate_loop (i + 1) rest st ;;
        Ok (text :: (if String.eqb subtree "" then [] else [subtree]) ++ output,
            here :: below ++ after,
            st)
  end.

End Loop.

(** [TreeGenerator.generate].  [fuel] bounds the depth of the call
    stack. *)
Fixpoint generate (fuel : nat) (directory : Path) (prefix : string)
    (depth : Z) (st : Counters) {struct fuel} : result block :=
  match fuel with
  | O => Raise RecursionError
  | S fuel' =>
      if depth_reached depth then Ok ("", [], st)
      else if limit_reached st then Ok ("", [], st)
      else if negb (is_dir directory) then Ok ("", [], st)
      else
        entries <- _get_entries directory ;;
        '(output, lines, st) <-
          generate_loop (generate fuel') directory prefix depth
            (Z.of_nat (List.length entries)) 0 entries st ;;
        Ok (String.concat NL output, lines, st)
  end.

(** A fresh [TreeGenerator]: both counters at zero. *)
Definition fresh : Counters := {| file_count := 0; dir_count := 0 |}.

(* ------------------------------------------------------------------ *)
(** *** Names for pieces of the code, used in the statements *)

(** The entries of the lines of a block, in the order of the lines, and
    the counters. *)
Definition rendered (r : result block)
    : result (list (option Path) * Counters) :=
  '(_, lines, st) <- r ;; Ok (map ln_entry lines, st).

(** The line of an entry and the line of the limit, as the loop of
    [generate] builds them. *)
Definition entry_line (directory : Path) (prefix : string) (depth n i : Z)
    (entry : Path) : line :=
  let connector := if i =? n - 1 then ELBOW else TEE in
  {| ln_text := prefix +++ connector +++ _format_entry entry;
     ln_entry := Some entry; ln_dir := directory;
     ln_prefix := prefix; ln_connector := connector;
     ln_index := i; ln_depth := depth |}.

Definition limit_line (directory : Path) (prefix : string) (depth i : Z)
    : line :=
  {| ln_text := prefix +++ ELBOW +++ LIMIT_TEXT;
     ln_entry := None; ln_dir := directory;
     ln_prefix := prefix; ln_connector := ELBOW;
     ln_index := i; ln_depth := depth |}.

(** [generate] recurses into an entry *)
Definition descends (entry : Path) : bool :=
  is_dir entry && (follow_links config || negb (is_symlink entry)).

(** [generate] returns at once *)
Definition terminal (directory : Path) (depth : Z) (st : Counters) : bool :=
  depth_reached depth || limit_reached st || negb (is_dir directory).

(** the prefix given to the children of the entry at index [i] of [n] *)
Definition child_prefix (prefix : string) (n i : Z) : string :=
  prefix +++ (if i =? n - 1 then BLANK else PIPE).

(** The entries of a directory that the ignore policy lets through: the
    list comprehension of [_get_entries]. *)
Definition visible (directory : Path) : result (list Path) :=
  all <- iterdir directory ;;
  filterM (fun e => b <- _should_ignore e ;; Ok (negb b)) all.

(** The text of an entry before the annotations. *)
Definition base_text (path : Path) : string :=
  let name := if full_path config then path_str path else name path in
  if is_dir path then name +++ "/" else name.

(** [b] may follow [a] in a list sorted by [key]. *)
Definition key_ordered (key : Path -> result sortkey) (reverse : bool)
    (a b : Path) : Prop :=
  exists ka kb, key a = Ok ka /\ key b = Ok kb /\
    (if reverse then key_leb kb ka else key_leb ka kb) = true.

(** Every element is followed only by elements that may follow it. *)
Definition sorted_by (key : Path -> result sortkey) (reverse : bool)
    (l : list Path) : Prop :=
  StronglySorted (key_ordered key reverse) l.

(** The orders of the sort options, on what the system answers and not
    on the keys of [_get_sort_key].  By name: the lower-cased base name
    of [a] is not after the one of [b] (not before, when reversed). *)
Definition name_order (reverse : bool) (a b : Path) : Prop :=
  (if reverse then String.leb (lower (name b)) (lower (name a))
   else String.leb (lower (name a)) (lower (name b))) = true.

(** By a number of [stat]: [st_size] or [st_mtime].  Both entries can be
    examined, and the number of [a] is not above the one of [b] (not
    below, when reversed). *)
Definition stat_order (field : stat_result -> Z) (reverse : bool)
    (a b : Path) : Prop :=
  exists sa sb, stat a = Ok sa /\ stat b = Ok sb /\
    (if reverse then field sb <= field sa else field sa <= field sb).

(** The state of the loop of [generate] in [directory]: [entries] is
    what is left, from index [i] on, of the [n] entries that
    [_get_entries] returned. *)
Definition loop_at (directory : Path) (n i : Z) (entries : list Path) : Prop :=
  exists all,
    _get_entries directory = Ok all /\
    n = Z.of_nat (List.length all) /\
    0 <= i /\
    entries = skipn (Z.to_nat i) all.

(** A line is well formed: it was emitted while listing a directory
    above the depth limit, at an index of the list of [_get_entries], and
    it is the line the loop builds for the entry at that index, or the
    line of the file limit. *)
Definition line_wf (L : line) : Prop :=
  depth_reached (ln_depth L) = false /\
  is_dir (ln_dir L) = true /\
  exists all,
    _get_entries (ln_dir L) = Ok all /\
    match ln_entry L with
    | Some e =>
        nth_error all (Z.to_nat (ln_index L)) = Some e /\
        0 <= ln_index L /\
        L = entry_line (ln_dir L) (ln_prefix L) (ln_depth L)
              (Z.of_nat (List.length all)) (ln_index L) e
    | None =>
        L = limit_line (ln_dir L) (ln_prefix L) (ln_depth L) (ln_index L)
    end.

(** The directory of a line lies [ln_depth L - depth] levels below
    [directory]. *)
Definition placed (directory : Path) (depth : Z) (L : line) : Prop :=
  exists below,
    ln_dir L = directory ++ below /\
    Z.of_nat (List.length below) = ln_depth L - depth.

(** The lines of regular files, the lines of directories, and how many
    there are of a sort. *)
Definition is_file_line (L : line) : bool :=
  match ln_entry L with Some e => is_file e | None => false end.

Definition is_dir_line (L : line) : bool :=
  match ln_entry L with Some e => is_dir e | None => false end.

Definition count_lines (f : line -> bool) (lines : list line) : Z :=
  Z.of_nat (List.length (filter f lines)).

(** The shape of a block: lines of entries, then lines of the limit,
    each of these from a directory higher up than the one before.  Once
    a limit line is out, the limit is reached for good. *)
Definition limit_shape (depth : Z) (st : Counters)
    (lines : list line) (st' : Counters) : Prop :=
  exists es ms,
    lines = es ++ ms /\
    Forall (fun L => ln_entry L <> None) es /\
    Forall (fun M => ln_entry M = None /\ depth <= ln_depth M) ms /\
    StronglySorted (fun a b => ln_depth b < ln_depth a) ms /\
    (ms <> [] -> limit_reached st' = true) /\
    (limit_reached st = true ->
       es = [] /\ st' = st /\ Forall (fun M => ln_depth M = depth) ms).

(** A line of a block comes from the directory of the call, under the
    prefix of the call, or from a directory whose own line is in the
    block; then its prefix is the prefix of that line and one more
    segment, blank when that line is the last of its list and a pipe
    otherwise. *)
Definition prefixed (root : Path) (prefix : string) (depth : Z)
    (lines : list line) (C : line) : Prop :=
  (ln_dir C = root /\ ln_prefix C = prefix /\ ln_depth C = depth) \/
  exists P all,
    In P lines /\
    ln_entry P = Some (ln_dir C) /\
    _get_entries (ln_dir P) = Ok all /\
    ln_depth C = ln_depth P + 1 /\
    ln_prefix C =
      ln_prefix P +++
      (if ln_index P =? Z.of_nat (List.length all) - 1 then BLANK else PIPE).

(** The lines that a call at [depth] emits for the entries of its own
    directory, the lines from further down left out. *)
Definition own_lines (depth : Z) (lines : list line) : list line :=
  filter (fun L => ln_depth L =? depth) lines.

(** Tee on every line but the last, elbow on the last. *)
Fixpoint tee_then_elbow (own : list line) : Prop :=
  match own with
  | [] => True
  | L :: rest =>
      match rest with
      | [] => ln_connector L = ELBOW
      | _ :: _ => ln_connector L = TEE /\ tee_then_elbow rest
      end
  end.

(* ------------------------------------------------------------------ *)
(** *** The ignore policy, rule by rule *)

(** rule 1: hidden entries *)
Definition hidden_rule (path : Path) : bool :=
  negb (show_hidden config) && startswith (name path) ".".

(** rule 2: the custom patterns *)
Definition custom_rule (path : Path) : bool :=
  existsb (fnmatch (name path)) (custom_ignore config).

(** rule 3 on the base name alone: some loaded pattern, its trailing
    slashes stripped, matches the base name. *)
Definition gitignore_name_rule (path : Path) : bool :=
  use_gitignore config &&
  existsb (fun pattern => fnmatch (name path) (rstrip "/" pattern))
          (gitignore_patterns config).

(** The policy with exactly these three rules. *)
Definition three_rules (path : Path) : bool :=
  hidden_rule path || custom_rule path || gitignore_name_rule path.

(** rule 3 as the code has it, for an entry whose path below the
    working directory is [rel]: a stripped pattern matches the base name,
    or it holds a slash and matches the relative path. *)
Definition gitignore_rule (path : Path) (rel : list string) : bool :=
  use_gitignore config &&
  existsb (fun pattern =>
             let pattern := rstrip "/" pattern in
             fnmatch (name path) pattern ||
             (contains "/" pattern && fnmatch (rel_str rel) pattern))
          (gitignore_patterns config).

(** The type filter of [_get_entries] together with the regrouping:
    which entries the configuration lets through by their type. *)
Definition type_admitted (e : Path) : bool :=
  if dirs_only config then is_dir e
  else if files_only config then is_file e
  else is_dir e || is_file e.

(** The lines of entries, as against the lines of the file limit. *)
Definition is_entry_line (L : line) : bool :=
  match ln_entry L with Some _ => true | None => false end.

(** The character of an octal digit. *)
Definition oct_digit (d : Z) : ascii := ascii_of_nat (48 + Z.to_nat d).

(* ------------------------------------------------------------------ *)
(** *** The constructor, the size format and [main] *)

(** The loop [for line in f] of [_load_gitignore_patterns] over the
    lines of the file, [patterns] being the set so far.  [strip] is
    [str.strip] of Python strings: any function, as for [lower]. *)
Fixpoint load_lines (strip : string -> string) (lines : list string)
    (patterns : list string) : list string :=
  match lines with
  | [] => patterns
  | line :: rest =>
      let line := strip line in
      if negb (String.eqb line "") && negb (startswith line "#")
      then load_lines strip rest (set_add line patterns)
      else load_lines strip rest patterns
  end.

(** [TreeGenerator._load_gitignore_patterns].  [gitignore] is the file
    [.gitignore] of the working directory: [None] when it does not
    exist, its lines otherwise.  The set of the configuration object is
    updated in place; the configuration after the call is returned. *)
Definition _load_gitignore_patterns (strip : string -> string)
    (gitignore : option (list string)) (c : TreeConfig) : TreeConfig :=
  match gitignore with
  | None => c
  | Some lines =>
      with_patterns c (load_lines strip lines (gitignore_patterns c))
  end.

(** [TreeGenerator.__init__]: the configuration it leaves; both counters
    start at zero ([fresh]). *)
Definition TreeGenerator_init (strip : string -> string)
    (gitignore : option (list string)) (c : TreeConfig) : TreeConfig :=
  if use_gitignore c then _load_gitignore_patterns strip gitignore c else c.

(** [TreeGenerator(config)] as the process runs it.  [gitignore] is what
    the working directory holds under the name [.gitignore]: [None]
    when [exists()] is false, [Some (Raise e)] when [open] or the
    reading of a line raises [e] (a directory of that name, a file that
    may not be read, bytes that are no text), [Some (Ok lines)] when the
    lines are read.  Nothing catches the exception, and without
    [use_gitignore] the file is not looked at. *)
Definition TreeGenerator_new (strip : string -> string)
    (gitignore : option (result (list string))) (c : TreeConfig)
    : result TreeConfig :=
  if use_gitignore c then
    match gitignore with
    | None => Ok (TreeGenerator_init strip None c)
    | Some (Raise e) => Raise e
    | Some (Ok lines) => Ok (TreeGenerator_init strip (Some lines) c)
    end
  else Ok c.

(** The number of tenths that [format_6_1f] prints for [num / den]. *)
Definition round_tenths (num den : Z) : Z :=
  let q := (10 * num) / den in
  let r := (10 * num) mod den in
  if 2 * r <? den then q
  else if den <? 2 * r then q + 1
  else if Z.even q then q else q + 1.

(** The units of [_format_size], from the smallest. *)
Definition UNITS : list string := ["B"; "KB"; "MB"; "GB"; "TB"; "PB"].

(** [main], from the validation of the path on.  [config] is the
    configuration that [main] filled from [args] and that the constructor
    of [TreeGenerator] completed; [fuel] is the stack left for
    [generate].  [resolve] is [Path(s).resolve()], the absolute path the
    system gives for what was typed, and [exists_] is [path.exists()].
    An exception of [generate] is caught nowhere.  The constructor call
    itself, which can raise, is in [run_main]: the process from the
    arguments on; this is what it does once the constructor returned. *)
Definition main (resolve : string -> Path) (exists_ : Path -> bool)
    (fuel : nat) (args : Args) : process :=
  let root_path := resolve (arg_path args) in
  if negb (exists_ root_path) then
    {| stdout := "";
       stderr := print "" ("Error: Path '" +++ arg_path args +++
                           "' does not exist");
       status := Exit 1 |}
  else if negb (is_dir root_path) then
    {| stdout := "";
       stderr := print "" ("Error: Path '" +++ arg_path args +++
                           "' is not a directory");
       status := Exit 1 |}
  else
    let out := print "" (path_str root_path +++ "/") in
    match generate fuel root_path "" 0 fresh with
    | Raise e => {| stdout := out; stderr := ""; status := Uncaught e |}
    | Ok (tree, _, generator) =>
        let out := if String.eqb tree "" then out else print out tree in
        let out := print out "" in
        let out := out +++ str_of_Z (dir_count generator) +++ " directories" in
        let out :=
          if negb (dirs_only config)
          then out +++ ", " +++ str_of_Z (file_count generator) +++ " files"
          else out in
        {| stdout := print out ""; stderr := ""; status := Exit 0 |}
    end.

(** A prefix grown by [k] segments, each blank or a pipe. *)
Fixpoint segments (k : nat) (s : string) : Prop :=
  match k with
  | O => s = ""
  | S k' =>
      exists seg rest,
        (seg = BLANK \/ seg = PIPE) /\ s = seg +++ rest /\ segments k' rest
  end.

(* ================================================================== *)
(** ** The result monad *)

Lemma bind_Ok_inv (A B : Type) (m : result A) (k : A -> result B) (b : B) :
  bind m k = Ok b -> exists a, m = Ok a /\ k a = Ok b.
Proof.
  destruct m as [a|e]; simpl; intros H; [eauto | discriminate].
Qed.

(** ** An induction principle that follows the calls of [generate]

    [PG] is shown of every call that returns, [PL] of every run of its
    loop from some index on; one case per path through the code. *)
Section GenerateInd.

Variable PG : Path -> string -> Z -> Counters -> block -> Prop.
Variable PL : Path -> string -> Z -> Z -> Z -> list Path -> Counters ->
              list string * list line * Counters -> Prop.

Hypothesis case_terminal : forall directory prefix depth st,
  terminal directory depth st = true ->
  PG directory prefix depth st ("", [], st).

Hypothesis case_listed : forall directory prefix depth st entries output lines st',
  terminal directory depth st = false ->
  _get_entries directory = Ok entries ->
  PL directory prefix depth (Z.of_nat (List.length entries)) 0 entries st
     (output, lines, st') ->
  PG directory prefix depth st (String.concat NL output, lines, st').

Hypothesis case_done : forall directory prefix depth n i st,
  PL directory prefix depth n i [] st ([], [], st).

Hypothesis case_limit : forall directory prefix depth n i entry rest st,
  limit_reached st = true ->
  PL directory prefix depth n i (entry :: rest) st
     ([prefix +++ ELBOW +++ LIMIT_TEXT],
      [limit_line directory prefix depth i], st).

Hypothesis case_leaf : forall directory prefix depth n i entry rest st
    output after st',
  limit_reached st = false ->
  descends entry = false ->
  PL directory prefix depth n (i + 1) rest (count_entry entry st)
     (output, after, st') ->
  PL directory prefix depth n i (entry :: rest) st
     (ln_text (entry_line directory prefix depth n i entry) :: output,
      entry_line directory prefix depth n i entry :: after, st').

Hypothesis case_descend : forall directory prefix depth n i entry rest st
    subtree below st1 output after st',
  limit_reached st = false ->
  descends entry = true ->
  PG entry (child_prefix prefix n i) (depth + 1) (count_entry entry st)
     (subtree, below, st1) ->
  PL directory prefix depth n (i + 1) rest st1 (output, after, st') ->
  PL directory prefix depth n i (entry :: rest) st
     (ln_text (entry_line directory prefix depth n i entry)
        :: (if String.eqb subtree "" then [] else [subtree]) ++ output,
      entry_line directory prefix depth n i entry :: below ++ after, st').

Lemma generate_loop_ind (self_generate : Path -> string -> Z -> Counters -> result block)
    (directory : Path) (prefix : string) (depth n : Z) :
  (forall d p k st b, self_generate d p k st = Ok b -> PG d p k st b) ->
  forall entries i st r,
    generate_loop self_generate directory prefix depth n i entries st = Ok r ->
    PL directory prefix depth n i entries st r.
Proof.
  intros Hself. induction entries as [|entry rest IH]; intros i st r H.
  - cbn [generate_loop] in H. injection H as <-. apply case_done.
  - cbn [generate_loop] in H. destruct (limit_reached st) eqn:Hlim.
    + injection H as <-. apply case_limit; assumption.
    + fold (descends entry) in H.
      destruct (descends entry) eqn:Hdesc.
      * apply bind_Ok_inv in H as [[[subtree below] st1] [Hsub H]].
        apply bind_Ok_inv in H as [[[output after] st2] [Hrest H]].
        injection H as <-.
        apply (@case_descend directory prefix depth n i entry rest st
                 subtree below st1 output after st2 Hlim Hdesc).
        -- apply Hself. exact Hsub.
        -- apply IH. exact Hrest.
      * apply bind_Ok_inv in H as [[[subtree below] st1] [Hsub H]].
        injection Hsub as <- <- <-.
        apply bind_Ok_inv in H as [[[output after] st2] [Hrest H]].
        injection H as <-.
        apply (@case_leaf directory prefix depth n i entry rest st
                 output after st2 Hlim Hdesc).
        apply IH. exact Hrest.
Qed.

Lemma generate_ind (fuel : nat) :
  forall directory prefix depth st b,
    generate fuel directory prefix depth st = Ok b ->
    PG directory prefix depth st b.
Proof.
  induction fuel as [|fuel IH]; intros directory prefix depth st b H.
  - discriminate.
  - simpl in H.
    destruct (depth_reached depth) eqn:Hd.
    { injection H as <-. apply case_terminal. unfold terminal. now rewrite Hd. }
    destruct (limit_reached st) eqn:Hl.
    { injection H as <-. apply case_terminal. unfold terminal.
      rewrite Hl. now rewrite orb_true_r. }
    destruct (is_dir directory) eqn:Hdir; simpl in H.
    2:{ injection H as <-. apply case_terminal. unfold terminal.
        rewrite Hdir. now rewrite orb_true_r. }
    apply bind_Ok_inv in H as [entries [Hent H]].
    apply bind_Ok_inv in H as [[[output lines] st'] [Hloop H]].
    injection H as <-.
    apply (@case_listed directory prefix depth st entries output lines st');
      [ | assumption | ].
    + unfold terminal. now rewrite Hd, Hl, Hdir.
    + eapply generate_loop_ind; [exact IH | exact Hloop].
Qed.

End GenerateInd.

(* ================================================================== *)
(** ** The ignore policy *)

Lemma gitignore_loop_under_cwd (path : Path) (rel : list string) :
  relative_to path cwd = Ok rel ->
  forall patterns,
    gitignore_loop path patterns =
    Ok (existsb (fun pattern =>
                   let pattern := rstrip "/" pattern in
                   fnmatch (name path) pattern ||
                   (contains "/" pattern && fnmatch (rel_str rel) pattern))
                patterns).
Proof.
  intros Hrel. induction patterns as [|pattern rest IH]; simpl; [reflexivity|].
  unfold gitignore_step. rewrite Hrel.
  destruct (fnmatch (name path) (rstrip "/" pattern)); simpl; [reflexivity|].
  destruct (contains "/" (rstrip "/" pattern)); simpl.
  - destruct (fnmatch (rel_str rel) (rstrip "/" pattern)); simpl;
      [reflexivity | exact IH].
  - exact IH.
Qed.

(** The first two rules decide before anything is asked about the
    working directory. *)
Lemma should_ignore_short_circuit (path : Path) :
  hidden_rule path || custom_rule path = true ->
  _should_ignore path = Ok true.
Proof.
  unfold _should_ignore, hidden_rule, custom_rule. intros H.
  destruct (negb (show_hidden config) && startswith (name path) ".");
    [reflexivity|].
  simpl in H. now rewrite H.
Qed.

(** C7, amended.  For an entry below the working directory the policy
    is the disjunction of three rules tried in order: hidden name, custom
    pattern on the base name, and (with [use_gitignore]) a loaded pattern
    that, stripped of trailing slashes, matches the base name or holds a
    slash and matches the path relative to the working directory.
    Nothing else excludes an entry, and the kind of the entry is not
    consulted. *)
Theorem should_ignore_rules (path : Path) (rel : list string) :
  relative_to path cwd = Ok rel ->
  _should_ignore path =
  Ok (hidden_rule path || custom_rule path || gitignore_rule path rel).
Proof.
  intros Hrel. unfold _should_ignore, hidden_rule, custom_rule, gitignore_rule.
  destruct (negb (show_hidden config) && startswith (name path) ".");
    [reflexivity|].
  destruct (existsb (fnmatch (name path)) (custom_ignore config));
    [reflexivity|].
  destruct (use_gitignore config); simpl; [|reflexivity].
  now apply gitignore_loop_under_cwd.
Qed.

(** Outside the working directory a pattern with a slash that does not
    match the base name makes the policy raise. *)
Lemma should_ignore_outside_cwd (path : Path) (pattern : string)
    (rest : list string) :
  relative_to path cwd = Raise ValueError ->
  hidden_rule path || custom_rule path = false ->
  use_gitignore config = true ->
  gitignore_patterns config = pattern :: rest ->
  fnmatch (name path) (rstrip "/" pattern) = false ->
  contains "/" (rstrip "/" pattern) = true ->
  _should_ignore path = Raise ValueError.
Proof.
  intros Hrel Hrules Hgit Hpats Hname Hslash.
  unfold _should_ignore. unfold hidden_rule, custom_rule in Hrules.
  apply orb_false_elim in Hrules as [-> ->].
  rewrite Hgit, Hpats. simpl. unfold gitignore_step.
  now rewrite Hname, Hslash, Hrel.
Qed.

(* ================================================================== *)
(** ** Listing a directory *)

(** C8, amended.  A listing that fails with a permission error gives the
    empty list of entries. *)
Theorem get_entries_permission_error (directory : Path) :
  fs_listdir fs directory = Raise PermissionError ->
  _get_entries directory = Ok [].
Proof.
  intros H. unfold _get_entries, iterdir. now rewrite H.
Qed.

(** Any other failure of the listing leaves [_get_entries] as it is. *)
Lemma get_entries_other_error (directory : Path) (e : exn) :
  fs_listdir fs directory = Raise e ->
  e <> PermissionError ->
  _get_entries directory = Raise e.
Proof.
  intros H Hne. unfold _get_entries, iterdir. rewrite H. simpl.
  destruct e; congruence.
Qed.

(** *** The order on keys *)

Lemma ascii_compare_refl (a : ascii) : Ascii.compare a a = Eq.
Proof. unfold Ascii.compare. apply N.compare_refl. Qed.

Lemma ascii_compare_lt_trans (a b c : ascii) :
  Ascii.compare a b = Lt -> Ascii.compare b c = Lt -> Ascii.compare a c = Lt.
Proof.
  unfold Ascii.compare. rewrite !N.compare_lt_iff. apply N.lt_trans.
Qed.

Lemma string_compare_lt_trans :
  forall a b c : string,
    String.compare a b = Lt -> String.compare b c = Lt ->
    String.compare a c = Lt.
Proof.
  induction a as [|x a IH]; destruct b as [|y b], c as [|z c]; simpl;
    try easy.
  intros H1 H2.
  destruct (Ascii.compare x y) eqn:E1; try discriminate;
    destruct (Ascii.compare y z) eqn:E2; try discriminate.
  - apply Ascii.compare_eq_iff in E1, E2. subst.
    rewrite ascii_compare_refl. eauto.
  - apply Ascii.compare_eq_iff in E1. subst. now rewrite E2.
  - apply Ascii.compare_eq_iff in E2. subst. now rewrite E1.
  - now rewrite (ascii_compare_lt_trans _ _ _ E1 E2).
Qed.

Lemma string_leb_trans (a b c : string) :
  String.leb a b = true -> String.leb b c = true -> String.leb a c = true.
Proof.
  unfold String.leb. intros H1 H2.
  destruct (String.compare a b) eqn:E1; try discriminate;
    destruct (String.compare b c) eqn:E2; try discriminate.
  - apply String.compare_eq_iff in E1. subst. now rewrite E2.
  - apply String.compare_eq_iff in E1. subst. now rewrite E2.
  - apply String.compare_eq_iff in E2. subst. now rewrite E1.
  - now rewrite (string_compare_lt_trans _ _ _ E1 E2).
Qed.

Lemma key_leb_total (a b : sortkey) :
  key_leb a b = true \/ key_leb b a = true.
Proof.
  destruct a as [x|x], b as [y|y]; simpl; auto.
  - destruct (Z.leb_spec x y); [now left | right; apply Z.leb_le; lia].
  - apply String.leb_total.
Qed.

Lemma key_leb_trans (a b c : sortkey) :
  key_leb a b = true -> key_leb b c = true -> key_leb a c = true.
Proof.
  destruct a as [x|x], b as [y|y], c as [z|z]; simpl; try easy.
  - rewrite !Z.leb_le. lia.
  - apply string_leb_trans.
Qed.

Lemma keyed_leb_total (reverse : bool) (x y : sortkey * Path) :
  keyed_leb reverse x y = true \/ keyed_leb reverse y x = true.
Proof. unfold keyed_leb. destruct reverse; apply key_leb_total. Qed.

Lemma keyed_leb_trans (reverse : bool) (x y z : sortkey * Path) :
  keyed_leb reverse x y = true -> keyed_leb reverse y z = true ->
  keyed_leb reverse x z = true.
Proof.
  unfold keyed_leb. destruct reverse; intros H1 H2.
  - exact (key_leb_trans _ _ _ H2 H1).
  - exact (key_leb_trans _ _ _ H1 H2).
Qed.

(** *** The sort *)

Lemma insert_keyed_perm (reverse : bool) (x : sortkey * Path) :
  forall l, Permutation (insert_keyed reverse x l) (x :: l).
Proof.
  induction l as [|y l IH]; simpl; [reflexivity|].
  destruct (keyed_leb reverse x y); [reflexivity|].
  rewrite IH. apply perm_swap.
Qed.

Lemma sort_keyed_perm (reverse : bool) :
  forall l, Permutation (sort_keyed reverse l) l.
Proof.
  induction l as [|x l IH]; simpl; [reflexivity|].
  rewrite insert_keyed_perm. now constructor.
Qed.

Lemma insert_keyed_sorted (reverse : bool) (x : sortkey * Path) :
  forall l,
    StronglySorted (fun a b => keyed_leb reverse a b = true) l ->
    StronglySorted (fun a b => keyed_leb reverse a b = true)
                   (insert_keyed reverse x l).
Proof.
  induction l as [|y l IH]; simpl; intros Hs.
  - constructor; constructor.
  - inversion Hs as [|? ? Hl Hy]; subst.
    destruct (keyed_leb reverse x y) eqn:Hxy.
    + constructor; [assumption|].
      constructor; [assumption|].
      eapply Forall_impl; [|exact Hy].
      intros z Hz. eapply keyed_leb_trans; eassumption.
    + constructor; [now apply IH|].
      assert (Hyx : keyed_leb reverse y x = true).
      { destruct (keyed_leb_total reverse x y); congruence. }
      rewrite Forall_forall. intros z Hz.
      apply (Permutation_in _ (insert_keyed_perm reverse x l)) in Hz.
      destruct Hz as [<-|Hz]; [assumption|].
      rewrite Forall_forall in Hy. now apply Hy.
Qed.

Lemma sort_keyed_sorted (reverse : bool) :
  forall l,
    StronglySorted (fun a b => keyed_leb reverse a b = true)
                   (sort_keyed reverse l).
Proof.
  induction l as [|x l IH]; simpl; [constructor|].
  now apply insert_keyed_sorted.
Qed.

Lemma mapM_keyed (key : Path -> result sortkey) :
  forall l keyed,
    mapM (fun p => k <- key p ;; Ok (k, p)) l = Ok keyed ->
    map snd keyed = l /\
    Forall (fun kp => key (snd kp) = Ok (fst kp)) keyed.
Proof.
  induction l as [|p l IH]; simpl; intros keyed H.
  - injection H as <-. split; constructor.
  - apply bind_Ok_inv in H as [[k p'] [Hk H]].
    apply bind_Ok_inv in Hk as [k' [Hk Hp]]. injection Hp as <- <-.
    apply bind_Ok_inv in H as [ys [Hys H]]. injection H as <-.
    destruct (IH _ Hys) as [Hm Hf]. simpl. split.
    + now rewrite Hm.
    + constructor; assumption.
Qed.

(** Mapping a strongly sorted list along a function that carries the
    order over. *)
Lemma StronglySorted_map (A B : Type) (R : A -> A -> Prop) (Q : B -> B -> Prop)
    (f : A -> B) (P : A -> Prop) :
  (forall a b, P a -> P b -> R a b -> Q (f a) (f b)) ->
  forall l, Forall P l -> StronglySorted R l -> StronglySorted Q (map f l).
Proof.
  intros Hf. induction l as [|a l IH]; simpl; intros HP Hs; [constructor|].
  inversion HP as [|? ? Pa Pl]; inversion Hs as [|? ? Hl Ha]; subst.
  constructor; [now apply IH|].
  rewrite Forall_forall in *. intros b Hb.
  apply in_map_iff in Hb as [b' [<- Hb']].
  apply Hf; auto.
Qed.

(** What [sorted] returns holds the elements it was given, in the order
    of their keys: ascending, or descending with [reverse]. *)
Lemma sorted_spec (key : Path -> result sortkey) (reverse : bool)
    (l l' : list Path) :
  sorted key reverse l = Ok l' ->
  Permutation l' l /\ sorted_by key reverse l'.
Proof.
  unfold sorted. intros H.
  apply bind_Ok_inv in H as [keyed [Hk H]]. injection H as <-.
  destruct (mapM_keyed _ _ _ Hk) as [Hm Hf]. split.
  - rewrite <- Hm. apply Permutation_map. apply sort_keyed_perm.
  - unfold sorted_by.
    apply StronglySorted_map
      with (R := fun a b => keyed_leb reverse a b = true)
           (P := fun kp => key (snd kp) = Ok (fst kp)).
    + intros [ka a] [kb b] Ha Hb Hab. simpl in *.
      exists ka, kb. repeat split; assumption.
    + rewrite Forall_forall in *. intros kp Hin. apply Hf.
      eapply Permutation_in; [apply sort_keyed_perm | exact Hin].
    + apply sort_keyed_sorted.
Qed.

(** [sorted] returns whenever every key can be computed. *)
Lemma sorted_total (key : Path -> result sortkey) (reverse : bool)
    (l : list Path) :
  Forall (fun p => exists k, key p = Ok k) l ->
  exists l', sorted key reverse l = Ok l'.
Proof.
  intros H. unfold sorted.
  assert (exists keyed, mapM (fun p => k <- key p ;; Ok (k, p)) l = Ok keyed)
    as [keyed ->].
  { induction H as [|p l [k Hk] _ [keyed IH]]; simpl; [eauto|].
    rewrite Hk. simpl. rewrite IH. simpl. eauto. }
  simpl. eauto.
Qed.

Lemma Forall_filter_true (A : Type) (f : A -> bool) (l : list A) :
  Forall (fun x => f x = true) (filter f l).
Proof.
  rewrite Forall_forall. intros x Hx. now apply filter_In in Hx.
Qed.

Lemma Forall_perm (A : Type) (P : A -> Prop) (l l' : list A) :
  Permutation l l' -> Forall P l' -> Forall P l.
Proof.
  intros Hp Hf. rewrite Forall_forall in *. intros x Hx.
  apply Hf. eapply Permutation_in; eassumption.
Qed.

Lemma filter_perm (A : Type) (f : A -> bool) (l l' : list A) :
  Permutation l l' -> Permutation (filter f l) (filter f l').
Proof.
  induction 1; simpl.
  - constructor.
  - destruct (f x); [now constructor | assumption].
  - destruct (f x), (f y); try reflexivity. apply perm_swap.
  - etransitivity; eassumption.
Qed.

(** What [_get_entries] returns when it has listed the directory. *)
Lemma get_entries_listed (directory : Path) (vis entries : list Path) :
  visible directory = Ok vis ->
  _get_entries directory = Ok entries ->
  if dirs_only config then
    Permutation entries (filter is_dir vis) /\
    sorted_by _get_sort_key (reverse_sort config) entries
  else if files_only config then
    Permutation entries (filter is_file vis) /\
    sorted_by _get_sort_key (reverse_sort config) entries
  else
    exists ds fs,
      entries = ds ++ fs /\
      Permutation ds (filter is_dir vis) /\
      Permutation fs (filter is_file vis) /\
      sorted_by _get_sort_key (reverse_sort config) ds /\
      sorted_by _get_sort_key (reverse_sort config) fs.
Proof.
  unfold visible, _get_entries. intros -> H.
  destruct (dirs_only config) eqn:Hd.
  - apply bind_Ok_inv in H as [l [Hs H]].
    rewrite andb_false_r in H. injection H as <-.
    now apply sorted_spec.
  - destruct (files_only config) eqn:Hf.
    + apply bind_Ok_inv in H as [l [Hs H]].
      simpl in H. injection H as <-.
      now apply sorted_spec.
    + apply bind_Ok_inv in H as [l [Hs H]]. simpl in H.
      apply bind_Ok_inv in H as [ds [Hds H]].
      apply bind_Ok_inv in H as [fs' [Hfs H]]. injection H as <-.
      apply sorted_spec in Hs as [Hp _].
      apply sorted_spec in Hds as [Hpd Hsd].
      apply sorted_spec in Hfs as [Hpf Hsf].
      exists ds, fs'. repeat split; try assumption.
      * rewrite Hpd. now apply filter_perm.
      * rewrite Hpf. now apply filter_perm.
Qed.

(** A permission error apart, [_get_entries] returns only after the
    listing and the ignore policy have. *)
Lemma get_entries_visible (directory : Path) (entries : list Path) :
  _get_entries directory = Ok entries ->
  (exists vis, visible directory = Ok vis) \/
  (visible directory = Raise PermissionError /\ entries = []).
Proof.
  unfold _get_entries. fold (visible directory).
  destruct (visible directory) as [vis|e]; [eauto|].
  destruct e; intros H; try discriminate. injection H as <-. now right.
Qed.

(** What two entries in key order say of the names and of the numbers
    of [stat], for each sort option. *)
Lemma key_ordered_name (reverse : bool) (a b : Path) :
  sort_by config = ByName ->
  key_ordered _get_sort_key reverse a b -> name_order reverse a b.
Proof.
  intros Hs (ka & kb & Ha & Hb & Hle). unfold _get_sort_key in Ha, Hb.
  rewrite Hs in Ha, Hb. injection Ha as <-. injection Hb as <-.
  exact Hle.
Qed.

Lemma key_ordered_mtime (reverse : bool) (a b : Path) :
  sort_by config = ByModified ->
  key_ordered _get_sort_key reverse a b -> stat_order st_mtime reverse a b.
Proof.
  intros Hs (ka & kb & Ha & Hb & Hle). unfold _get_sort_key in Ha, Hb.
  rewrite Hs in Ha, Hb.
  apply bind_Ok_inv in Ha as (sa & Hsa & Ha).
  apply bind_Ok_inv in Hb as (sb & Hsb & Hb).
  injection Ha as <-. injection Hb as <-.
  exists sa, sb. split; [assumption|]. split; [assumption|].
  destruct reverse; simpl in Hle; now apply Z.leb_le.
Qed.

Lemma key_ordered_size (reverse : bool) (a b : Path) :
  sort_by config = BySize ->
  is_file a = true -> is_file b = true ->
  key_ordered _get_sort_key reverse a b -> stat_order st_size reverse a b.
Proof.
  intros Hs Hfa Hfb (ka & kb & Ha & Hb & Hle). unfold _get_sort_key in Ha, Hb.
  rewrite Hs in Ha, Hb. rewrite Hfa in Ha. rewrite Hfb in Hb.
  apply bind_Ok_inv in Ha as (sa & Hsa & Ha).
  apply bind_Ok_inv in Hb as (sb & Hsb & Hb).
  injection Ha as <-. injection Hb as <-.
  exists sa, sb. split; [assumption|]. split; [assumption|].
  destruct reverse; simpl in Hle; now apply Z.leb_le.
Qed.

Lemma sort_key_of_dir (d : Path) :
  sort_by config = BySize -> is_dir d = true ->
  _get_sort_key d = Ok (KeyNum 0).
Proof.
  intros Hs Hd. unfold _get_sort_key. rewrite Hs.
  revert Hd. unfold is_dir, is_file.
  destruct (fs_kind fs d); congruence.
Qed.

Lemma StronglySorted_weaken (A : Type) (R Q : A -> A -> Prop) (P : A -> Prop) :
  (forall a b, P a -> P b -> R a b -> Q a b) ->
  forall l, Forall P l -> StronglySorted R l -> StronglySorted Q l.
Proof.
  intros H l HP Hs. rewrite <- (map_id l).
  now apply (StronglySorted_map A A R Q (fun x => x) P H).
Qed.

(** The two groups of the list of [_get_entries]. *)
Lemma get_entries_groups (directory : Path) (entries : list Path) :
  dirs_only config = false ->
  files_only config = false ->
  _get_entries directory = Ok entries ->
  exists ds fs,
    entries = ds ++ fs /\
    Forall (fun e => is_dir e = true) ds /\
    Forall (fun e => is_file e = true) fs /\
    sorted_by _get_sort_key (reverse_sort config) ds /\
    sorted_by _get_sort_key (reverse_sort config) fs /\
    (forall vis, visible directory = Ok vis ->
       Permutation ds (filter is_dir vis) /\
       Permutation fs (filter is_file vis)).
Proof.
  intros Hd Hf H.
  destruct (get_entries_visible _ _ H) as [[vis Hvis]|[Hvis ->]].
  - pose proof (get_entries_listed _ _ _ Hvis H) as Hl.
    rewrite Hd, Hf in Hl.
    destruct Hl as (ds & fs' & -> & Hpd & Hpf & Hsd & Hsf).
    exists ds, fs'.
    split; [reflexivity|].
    split; [eapply Forall_perm; [exact Hpd | apply Forall_filter_true]|].
    split; [eapply Forall_perm; [exact Hpf | apply Forall_filter_true]|].
    split; [assumption|]. split; [assumption|].
    intros vis' Hvis'. rewrite Hvis in Hvis'. injection Hvis' as <-.
    split; assumption.
  - exists [], [].
    split; [reflexivity|]. split; [constructor|]. split; [constructor|].
    split; [constructor|]. split; [constructor|].
    intros vis' Hvis'. rewrite Hvis in Hvis'. discriminate.
Qed.

(** C3.  With neither [dirs_only] nor [files_only], the list that
    [_get_entries] returns is the directories among the visible entries
    followed by the regular files among them, and each of the two groups
    is sorted by the key of [_get_sort_key]: ascending, or descending
    when [reverse_sort] is set.  Key by key: by name, each group is in
    the order of the lower-cased base names; by size, every directory
    has the key 0 and the files are in the order of their [st_size]; by
    modification time, each group is in the order of the [st_mtime]. *)
Theorem get_entries_dirs_first (directory : Path) (entries : list Path) :
  dirs_only config = false ->
  files_only config = false ->
  _get_entries directory = Ok entries ->
  exists ds fs,
    entries = ds ++ fs /\
    Forall (fun e => is_dir e = true) ds /\
    Forall (fun e => is_file e = true) fs /\
    sorted_by _get_sort_key (reverse_sort config) ds /\
    sorted_by _get_sort_key (reverse_sort config) fs /\
    (forall vis, visible directory = Ok vis ->
       Permutation ds (filter is_dir vis) /\
       Permutation fs (filter is_file vis)) /\
    match sort_by config with
    | ByName =>
        StronglySorted (name_order (reverse_sort config)) ds /\
        StronglySorted (name_order (reverse_sort config)) fs
    | BySize =>
        Forall (fun d => _get_sort_key d = Ok (KeyNum 0)) ds /\
        StronglySorted (stat_order st_size (reverse_sort config)) fs
    | ByModified =>
        StronglySorted (stat_order st_mtime (reverse_sort config)) ds /\
        StronglySorted (stat_order st_mtime (reverse_sort config)) fs
    end.
Proof.
  intros Hd Hf H.
  destruct (get_entries_groups _ _ Hd Hf H)
    as (ds & fs' & He & Hds & Hfs & Hsd & Hsf & Hp).
  exists ds, fs'.
  do 6 (split; [assumption|]).
  destruct (sort_by config) eqn:Hs.
  - split.
    + apply (StronglySorted_weaken _
               (key_ordered _get_sort_key (reverse_sort config)) _
               (fun _ => True));
        [ intros a b _ _; now apply key_ordered_name
        | apply Forall_forall; trivial | exact Hsd ].
    + apply (StronglySorted_weaken _
               (key_ordered _get_sort_key (reverse_sort config)) _
               (fun _ => True));
        [ intros a b _ _; now apply key_ordered_name
        | apply Forall_forall; trivial | exact Hsf ].
  - split.
    + revert Hds. apply Forall_impl. intros d. now apply sort_key_of_dir.
    + apply (StronglySorted_weaken _
               (key_ordered _get_sort_key (reverse_sort config)) _
               (fun e => is_file e = true));
        [ intros a b; now apply key_ordered_size | exact Hfs | exact Hsf ].
  - split.
    + apply (StronglySorted_weaken _
               (key_ordered _get_sort_key (reverse_sort config)) _
               (fun _ => True));
        [ intros a b _ _; now apply key_ordered_mtime
        | apply Forall_forall; trivial | exact Hsd ].
    + apply (StronglySorted_weaken _
               (key_ordered _get_sort_key (reverse_sort config)) _
               (fun _ => True));
        [ intros a b _ _; now apply key_ordered_mtime
        | apply Forall_forall; trivial | exact Hsf ].
Qed.

(** A key that cannot be computed stops the sort. *)
Lemma sorted_key_failure (key : Path -> result sortkey) (reverse : bool)
    (l : list Path) (p : Path) (e : exn) :
  In p l -> key p = Raise e ->
  exists e', sorted key reverse l = Raise e'.
Proof.
  intros Hin Hp. unfold sorted.
  assert (exists e', mapM (fun p => k <- key p ;; Ok (k, p)) l = Raise e')
    as [e' ->]; [|simpl; eauto].
  induction l as [|a l IH]; [destruct Hin|]. simpl.
  destruct (key a) as [k|e0] eqn:Ha; simpl; [|eauto].
  destruct Hin as [->|Hin]; [congruence|].
  destruct (IH Hin) as [e' ->]. simpl. eauto.
Qed.

(** With the modification time as key and no type filter, one visible
    entry whose metadata cannot be read makes [_get_entries] raise. *)
Lemma get_entries_modified_failure (directory : Path) (vis : list Path)
    (p : Path) (e : exn) :
  sort_by config = ByModified ->
  dirs_only config = false -> files_only config = false ->
  visible directory = Ok vis ->
  In p vis -> stat p = Raise e ->
  exists e', _get_entries directory = Raise e'.
Proof.
  intros Hsort Hd Hf Hvis Hin Hstat.
  unfold _get_entries. fold (visible directory). rewrite Hvis, Hd, Hf.
  destruct (sorted_key_failure _get_sort_key (reverse_sort config) vis p e Hin)
    as [e' ->]; [|simpl; eauto].
  unfold _get_sort_key. rewrite Hsort, Hstat. reflexivity.
Qed.

(** The key of [_get_sort_key], case by case. *)
Lemma get_sort_key_cases (p : Path) :
  match sort_by config with
  | ByName => _get_sort_key p = Ok (KeyStr (lower (name p)))
  | BySize =>
      _get_sort_key p =
      if is_file p then s <- stat p ;; Ok (KeyNum (st_size s))
      else Ok (KeyNum 0)
  | ByModified => _get_sort_key p = (s <- stat p ;; Ok (KeyNum (st_mtime s)))
  end.
Proof. unfold _get_sort_key. destruct (sort_by config); reflexivity. Qed.

(** Every entry that [_get_entries] returns is a directory or a regular
    file, whatever the configuration. *)
Lemma get_entries_dir_or_file (directory : Path) (entries : list Path) :
  _get_entries directory = Ok entries ->
  Forall (fun e => is_dir e || is_file e = true) entries.
Proof.
  intros H.
  destruct (get_entries_visible _ _ H) as [[vis Hvis]|[_ ->]]; [|constructor].
  pose proof (get_entries_listed _ _ _ Hvis H) as Hl.
  destruct (dirs_only config); [|destruct (files_only config)].
  - destruct Hl as [Hp _]. eapply Forall_perm; [exact Hp|].
    eapply Forall_impl; [|apply Forall_filter_true].
    intros e He. simpl in He. now rewrite He.
  - destruct Hl as [Hp _]. eapply Forall_perm; [exact Hp|].
    eapply Forall_impl; [|apply Forall_filter_true].
    intros e He. simpl in He. rewrite He. apply orb_true_r.
  - destruct Hl as (ds & fs' & -> & Hpd & Hpf & _).
    apply Forall_app. split.
    + eapply Forall_perm; [exact Hpd|].
      eapply Forall_impl; [|apply Forall_filter_true].
      intros e He. simpl in He. now rewrite He.
    + eapply Forall_perm; [exact Hpf|].
      eapply Forall_impl; [|apply Forall_filter_true].
      intros e He. simpl in He. rewrite He. apply orb_true_r.
Qed.

Lemma filterM_In (A : Type) (f : A -> result bool) :
  forall l l' x, filterM f l = Ok l' -> In x l' -> In x l /\ f x = Ok true.
Proof.
  induction l as [|a l IH]; simpl; intros l' x H Hin.
  - injection H as <-. destruct Hin.
  - apply bind_Ok_inv in H as [b [Hb H]].
    apply bind_Ok_inv in H as [ys [Hys H]]. injection H as <-.
    destruct b.
    + destruct Hin as [<-|Hin]; [auto|].
      destruct (IH _ _ Hys Hin). auto.
    + destruct (IH _ _ Hys Hin). auto.
Qed.

(** Every entry that [_get_entries] returns is a child of the directory
    that the system listed and the ignore policy let through. *)
Lemma get_entries_In (directory : Path) (entries : list Path) (e : Path) :
  _get_entries directory = Ok entries ->
  In e entries ->
  exists names child,
    fs_listdir fs directory = Ok names /\ In child names /\
    e = joinpath directory child /\
    _should_ignore e = Ok false.
Proof.
  intros H Hin.
  destruct (get_entries_visible _ _ H) as [[vis Hvis]|[_ ->]]; [|destruct Hin].
  assert (Hv : In e vis).
  { pose proof (get_entries_listed _ _ _ Hvis H) as Hl.
    destruct (dirs_only config); [|destruct (files_only config)].
    - destruct Hl as [Hp _]. apply (Permutation_in _ Hp) in Hin.
      now apply filter_In in Hin.
    - destruct Hl as [Hp _]. apply (Permutation_in _ Hp) in Hin.
      now apply filter_In in Hin.
    - destruct Hl as (ds & fs' & -> & Hpd & Hpf & _).
      apply in_app_or in Hin as [Hin|Hin].
      + apply (Permutation_in _ Hpd) in Hin. now apply filter_In in Hin.
      + apply (Permutation_in _ Hpf) in Hin. now apply filter_In in Hin. }
  unfold visible, iterdir in Hvis.
  apply bind_Ok_inv in Hvis as [all [Hall Hvis]].
  apply bind_Ok_inv in Hall as [names [Hnames Hall]]. injection Hall as <-.
  destruct (filterM_In _ _ _ _ _ Hvis Hv) as [Hin' Hign].
  apply in_map_iff in Hin' as [child [<- Hchild]].
  exists names, child. repeat split; try assumption.
  apply bind_Ok_inv in Hign as [b [Hb Hign]].
  destruct b; [discriminate | assumption].
Qed.

(* ================================================================== *)
(** ** The loop of [generate] *)

Lemma loop_at_start (directory : Path) (entries : list Path) :
  _get_entries directory = Ok entries ->
  loop_at directory (Z.of_nat (List.length entries)) 0 entries.
Proof. intros H. exists entries. repeat split; [assumption | lia]. Qed.

Lemma skipn_cons_nth (A : Type) :
  forall (k : nat) (l : list A) (x : A) (rest : list A),
    x :: rest = skipn k l ->
    nth_error l k = Some x /\ rest = skipn (S k) l.
Proof.
  induction k as [|k IH]; intros [|a l] x rest H; simpl in *;
    try discriminate.
  - injection H as -> ->. auto.
  - apply IH in H as [H1 H2]. auto.
Qed.

Lemma loop_at_step (directory : Path) (n i : Z) (entry : Path)
    (rest : list Path) :
  loop_at directory n i (entry :: rest) ->
  loop_at directory n (i + 1) rest /\
  exists all,
    _get_entries directory = Ok all /\ n = Z.of_nat (List.length all) /\
    0 <= i /\ nth_error all (Z.to_nat i) = Some entry.
Proof.
  intros (all & Hall & Hn & Hi & Hent).
  apply skipn_cons_nth in Hent as [Hnth Hrest].
  split.
  - exists all. repeat split; try assumption; [lia|].
    replace (Z.to_nat (i + 1)) with (S (Z.to_nat i)) by lia. exact Hrest.
  - exists all. auto.
Qed.

Lemma loop_at_entry (directory : Path) (n i : Z) (entry : Path)
    (rest : list Path) :
  loop_at directory n i (entry :: rest) ->
  (exists child, entry = joinpath directory child) /\
  is_dir entry || is_file entry = true.
Proof.
  intros H. apply loop_at_step in H as [_ (all & Hall & _ & _ & Hnth)].
  apply nth_error_In in Hnth. split.
  - destruct (get_entries_In _ _ _ Hall Hnth) as (names & child & _ & _ & -> & _).
    eauto.
  - pose proof (get_entries_dir_or_file _ _ Hall) as Hf.
    rewrite Forall_forall in Hf. now apply Hf.
Qed.

(* ================================================================== *)
(** ** The calls of [generate] *)

Lemma terminal_false (directory : Path) (depth : Z) (st : Counters) :
  terminal directory depth st = false ->
  depth_reached depth = false /\ limit_reached st = false /\
  is_dir directory = true.
Proof.
  unfold terminal. intros H.
  apply orb_false_elim in H as [H Hd].
  apply orb_false_elim in H as [H1 H2].
  apply negb_false_iff in Hd. auto.
Qed.

(** The terminal conditions: the call returns the empty block and leaves
    the counters as they are. *)
Lemma generate_terminal (fuel : nat) (directory : Path) (prefix : string)
    (depth : Z) (st : Counters) :
  terminal directory depth st = true ->
  generate (S fuel) directory prefix depth st = Ok ("", [], st).
Proof.
  unfold terminal. intros H. simpl.
  destruct (depth_reached depth); [reflexivity|].
  destruct (limit_reached st); [reflexivity|].
  simpl in H. now rewrite H.
Qed.

Lemma generate_S (fuel : nat) (directory : Path) (prefix : string)
    (depth : Z) (st : Counters) :
  generate (S fuel) directory prefix depth st =
  if depth_reached depth then Ok ("", [], st)
  else if limit_reached st then Ok ("", [], st)
  else if negb (is_dir directory) then Ok ("", [], st)
  else
    entries <- _get_entries directory ;;
    '(output, lines, st) <-
      generate_loop (generate fuel) directory prefix depth
        (Z.of_nat (List.length entries)) 0 entries st ;;
    Ok (String.concat NL output, lines, st).
Proof. reflexivity. Qed.

(** More stack changes nothing in a call that returned. *)
Lemma generate_loop_mono
    (g1 g2 : Path -> string -> Z -> Counters -> result block)
    (directory : Path) (prefix : string) (depth n : Z) :
  (forall d p k st b, g1 d p k st = Ok b -> g2 d p k st = Ok b) ->
  forall entries i st r,
    generate_loop g1 directory prefix depth n i entries st = Ok r ->
    generate_loop g2 directory prefix depth n i entries st = Ok r.
Proof.
  intros Hg. induction entries as [|entry rest IH]; intros i st r H;
    cbn [generate_loop] in *; [assumption|].
  destruct (limit_reached st); [assumption|].
  apply bind_Ok_inv in H as [[[subtree below] st1] [Hsub H]].
  apply bind_Ok_inv in H as [[[output after] st2] [Hrest H]].
  assert (Hsub' :
    (if is_dir entry && (follow_links config || negb (is_symlink entry))
     then g2 entry (prefix +++ (if i =? n - 1 then BLANK else PIPE))
             (depth + 1) (count_entry entry st)
     else Ok ("", [], count_entry entry st)) = Ok (subtree, below, st1)).
  { destruct (is_dir entry && (follow_links config || negb (is_symlink entry)));
      [now apply Hg | assumption]. }
  rewrite Hsub'. cbn [bind]. rewrite (IH _ _ _ Hrest). exact H.
Qed.

Lemma generate_fuel_mono :
  forall fuel directory prefix depth st b,
    generate fuel directory prefix depth st = Ok b ->
    generate (S fuel) directory prefix depth st = Ok b.
Proof.
  induction fuel as [|fuel IH]; intros directory prefix depth st b H;
    [discriminate|].
  rewrite generate_S in H. rewrite generate_S.
  destruct (depth_reached depth); [assumption|].
  destruct (limit_reached st); [assumption|].
  destruct (negb (is_dir directory)); [assumption|].
  apply bind_Ok_inv in H as [entries [Hent H]]. rewrite Hent. cbn [bind].
  apply bind_Ok_inv in H as [[[output lines] st'] [Hloop H]].
  rewrite (generate_loop_mono (generate fuel) (generate (S fuel))
             directory prefix depth _ IH _ _ _ _ Hloop).
  exact H.
Qed.

(** Under a depth limit [k] the stack needed is bounded: two amounts of
    fuel above the levels left give the same outcome. *)
Lemma generate_loop_ext
    (g1 g2 : Path -> string -> Z -> Counters -> result block)
    (directory : Path) (prefix : string) (depth n : Z) :
  (forall d p st, g1 d p (depth + 1) st = g2 d p (depth + 1) st) ->
  forall entries i st,
    generate_loop g1 directory prefix depth n i entries st =
    generate_loop g2 directory prefix depth n i entries st.
Proof.
  intros Hg. induction entries as [|entry rest IH]; intros i st;
    cbn [generate_loop]; [reflexivity|].
  destruct (limit_reached st); [reflexivity|].
  rewrite Hg.
  destruct (if is_dir entry && (follow_links config || negb (is_symlink entry))
            then _ else _) as [[[subtree below] st1]|e]; [|reflexivity].
  cbn [bind]. now rewrite IH.
Qed.

Lemma generate_fuel_depth (k : Z) :
  max_depth config = Some k ->
  forall fuel1 fuel2 directory prefix depth st,
    k - depth < Z.of_nat fuel1 -> k - depth < Z.of_nat fuel2 ->
    (0 < fuel1)%nat -> (0 < fuel2)%nat ->
    generate fuel1 directory prefix depth st =
    generate fuel2 directory prefix depth st.
Proof.
  intros Hk. induction fuel1 as [|fuel1 IH];
    intros [|fuel2] directory prefix depth st H1 H2 P1 P2; try lia.
  rewrite !generate_S. unfold depth_reached. rewrite Hk.
  destruct (Z.leb_spec k depth); [reflexivity|].
  destruct (limit_reached st); [reflexivity|].
  destruct (negb (is_dir directory)); [reflexivity|].
  destruct (_get_entries directory) as [entries|e]; [|reflexivity].
  cbn [bind].
  rewrite (generate_loop_ext (generate fuel1) (generate fuel2));
    [reflexivity|].
  intros d p st0. apply IH; lia.
Qed.

(** [_get_entries] returns when the directory could be listed and the
    key of every visible entry could be computed. *)
Lemma get_entries_returns (directory : Path) (vis : list Path) :
  visible directory = Ok vis ->
  Forall (fun p => exists k, _get_sort_key p = Ok k) vis ->
  exists entries, _get_entries directory = Ok entries.
Proof.
  intros Hvis Hkeys. unfold _get_entries. fold (visible directory).
  rewrite Hvis.
  set (typed := if dirs_only config then filter is_dir vis
                else if files_only config then filter is_file vis else vis).
  assert (Htyped : Forall (fun p => exists k, _get_sort_key p = Ok k) typed).
  { subst typed. destruct (dirs_only config); [|destruct (files_only config)];
      try assumption;
      (eapply incl_Forall; [apply incl_filter | assumption]). }
  destruct (sorted_total _get_sort_key (reverse_sort config) typed Htyped)
    as [l Hl].
  rewrite Hl. cbn [bind].
  destruct (negb (files_only config) && negb (dirs_only config)); [|eauto].
  apply sorted_spec in Hl as [Hperm _].
  assert (Hl' : Forall (fun p => exists k, _get_sort_key p = Ok k) l).
  { eapply Forall_perm; eassumption. }
  destruct (sorted_total _get_sort_key (reverse_sort config)
              (filter is_dir l)) as [ds Hds].
  { eapply incl_Forall; [apply incl_filter | assumption]. }
  destruct (sorted_total _get_sort_key (reverse_sort config)
              (filter is_file l)) as [fs' Hfs].
  { eapply incl_Forall; [apply incl_filter | assumption]. }
  rewrite Hds. cbn [bind]. rewrite Hfs. cbn [bind]. eauto.
Qed.

(** The name of an entry can always be read: sorting by name never
    fails. *)
Lemma get_entries_returns_by_name (directory : Path) (vis : list Path) :
  sort_by config = ByName ->
  visible directory = Ok vis ->
  exists entries, _get_entries directory = Ok entries.
Proof.
  intros Hname Hvis. apply (get_entries_returns directory vis Hvis).
  rewrite Forall_forall. intros p _.
  unfold _get_sort_key. rewrite Hname. eauto.
Qed.

(** Under a depth limit [k], on a file system whose directories can be
    listed, every call returns once the stack holds the levels left. *)
Lemma generate_loop_returns
    (g : Path -> string -> Z -> Counters -> result block)
    (directory : Path) (prefix : string) (depth n : Z) :
  (forall d p st, exists b, g d p (depth + 1) st = Ok b) ->
  forall entries i st,
    exists r, generate_loop g directory prefix depth n i entries st = Ok r.
Proof.
  intros Hg. induction entries as [|entry rest IH]; intros i st;
    cbn [generate_loop]; [eauto|].
  destruct (limit_reached st); [eauto|].
  assert (exists sub,
    (if is_dir entry && (follow_links config || negb (is_symlink entry))
     then g entry (prefix +++ (if i =? n - 1 then BLANK else PIPE))
            (depth + 1) (count_entry entry st)
     else Ok ("", [], count_entry entry st)) = Ok sub)
    as [[[subtree below] st1] ->].
  { destruct (is_dir entry && (follow_links config || negb (is_symlink entry)));
      [apply Hg | eauto]. }
  cbn [bind]. destruct (IH (i + 1) st1) as [[[output after] st2] ->].
  cbn [bind]. eauto.
Qed.

Lemma generate_returns (k : Z) :
  max_depth config = Some k ->
  (forall d, is_dir d = true -> exists entries, _get_entries d = Ok entries) ->
  forall fuel directory prefix depth st,
    k - depth < Z.of_nat fuel -> (0 < fuel)%nat ->
    exists b, generate fuel directory prefix depth st = Ok b.
Proof.
  intros Hk Hlist. induction fuel as [|fuel IH];
    intros directory prefix depth st Hfuel Hpos; [lia|].
  rewrite generate_S. unfold depth_reached. rewrite Hk.
  destruct (Z.leb_spec k depth); [eauto|].
  destruct (limit_reached st); [eauto|].
  destruct (is_dir directory) eqn:Hdir; cbn [negb]; [|eauto].
  destruct (Hlist directory Hdir) as [entries ->]. cbn [bind].
  destruct (generate_loop_returns (generate fuel) directory prefix depth
              (Z.of_nat (List.length entries))) with
    (entries := entries) (i := 0) (st := st) as [[[output lines] st'] ->].
  - intros d p st0. apply IH; lia.
  - cbn [bind]. eauto.
Qed.

(** Every line a call emits is well formed and comes from a directory
    that lies below the directory of the call, as many levels down as
    its depth says. *)
Lemma generate_lines_wf (fuel : nat) :
  forall directory prefix depth st b,
    generate fuel directory prefix depth st = Ok b ->
    Forall line_wf (snd (fst b)) /\
    Forall (placed directory depth) (snd (fst b)).
Proof.
  apply generate_ind with
    (PL := fun directory prefix depth n i entries st r =>
             depth_reached depth = false -> is_dir directory = true ->
             loop_at directory n i entries ->
             Forall line_wf (snd (fst r)) /\
             Forall (placed directory depth) (snd (fst r)));
    simpl.
  - intros. split; constructor.
  - intros directory prefix depth st entries output lines st' Ht He HL.
    apply terminal_false in Ht as (Hd & _ & Hdir).
    apply HL; [assumption | assumption | now apply loop_at_start].
  - intros. split; constructor.
  - intros directory prefix depth n i entry rest st _ Hd Hdir Hat.
    apply loop_at_step in Hat as [_ (all & Hall & _)].
    split; (constructor; [|constructor]).
    + repeat split; try assumption. exists all. split; [assumption|reflexivity].
    + exists []. simpl. rewrite app_nil_r. split; [reflexivity|lia].
  - intros directory prefix depth n i entry rest st output after st'
      _ _ IH Hd Hdir Hat.
    pose proof (loop_at_step _ _ _ _ _ Hat) as [Hnext (all & Hall & Hn & Hi & Hnth)].
    destruct (IH Hd Hdir Hnext) as [IH1 IH2].
    split; constructor; try assumption.
    + repeat split; try assumption. exists all. simpl.
      repeat split; try assumption. now subst n.
    + exists []. simpl. rewrite app_nil_r. split; [reflexivity|lia].
  - intros directory prefix depth n i entry rest st subtree below st1
      output after st' _ Hdesc [G1 G2] IH Hd Hdir Hat.
    pose proof (loop_at_step _ _ _ _ _ Hat) as [Hnext (all & Hall & Hn & Hi & Hnth)].
    destruct (loop_at_entry _ _ _ _ _ Hat) as [[child ->] _].
    destruct (IH Hd Hdir Hnext) as [IH1 IH2].
    split; constructor.
    + repeat split; try assumption. exists all. simpl.
      repeat split; try assumption. now subst n.
    + apply Forall_app. split; assumption.
    + exists []. simpl. rewrite app_nil_r. split; [reflexivity|lia].
    + apply Forall_app. split; [|assumption].
      eapply Forall_impl; [|exact G2].
      intros L (below' & Hb1 & Hb2). exists (child :: below').
      unfold joinpath in Hb1. rewrite <- app_assoc in Hb1. simpl in Hb1.
      split; [assumption|]. simpl List.length. lia.
Qed.

(** *** The text is the lines joined by newlines *)

Lemma join_cons (sep x : string) (xs : list string) :
  String.concat sep (x :: xs) =
  match xs with
  | [] => x
  | _ => x +++ sep +++ String.concat sep xs
  end.
Proof. destruct xs; reflexivity. Qed.

Lemma append_assoc (a b c : string) : (a +++ b) +++ c = a +++ b +++ c.
Proof. induction a as [|x a IH]; simpl; [reflexivity | now rewrite IH]. Qed.

Lemma append_empty_inv (a b : string) : a +++ b = "" -> a = "" /\ b = "".
Proof. destruct a; simpl; [auto | discriminate]. Qed.

Lemma join_app (sep : string) :
  forall xs ys : list string,
    xs <> [] -> ys <> [] ->
    String.concat sep (xs ++ ys) =
    String.concat sep xs +++ sep +++ String.concat sep ys.
Proof.
  induction xs as [|x xs IH]; intros ys Hx Hy; [congruence|].
  destruct xs as [|x' xs].
  - simpl. destruct ys; [congruence | reflexivity].
  - change ((x :: x' :: xs) ++ ys) with (x :: (x' :: xs) ++ ys).
    rewrite join_cons. simpl app at 1.
    rewrite (IH ys) by congruence.
    rewrite (join_cons sep x (x' :: xs)).
    now rewrite !append_assoc.
Qed.

Lemma ELBOW_not_empty (s t : string) : s +++ ELBOW +++ t <> "".
Proof. intros H. apply append_empty_inv in H as [_ H]. discriminate. Qed.

Lemma TEE_not_empty (s t : string) : s +++ TEE +++ t <> "".
Proof. intros H. apply append_empty_inv in H as [_ H]. discriminate. Qed.

Lemma entry_line_text (directory : Path) (prefix : string) (depth n i : Z)
    (entry : Path) :
  ln_text (entry_line directory prefix depth n i entry) <> "".
Proof.
  unfold entry_line. simpl.
  destruct (i =? n - 1); [apply ELBOW_not_empty | apply TEE_not_empty].
Qed.

Lemma join_not_empty (x : string) (xs : list string) :
  x <> "" -> String.concat NL (x :: xs) <> "".
Proof.
  intros Hx H. rewrite join_cons in H. destruct xs; [congruence|].
  apply append_empty_inv in H as [H _]. congruence.
Qed.

Lemma join_cons_congr (x : string) (A B : list string) :
  String.concat NL A = String.concat NL B ->
  (A = [] <-> B = []) ->
  String.concat NL (x :: A) = String.concat NL (x :: B).
Proof.
  intros Heq Hiff. rewrite !join_cons.
  destruct A as [|a A], B as [|b B]; try reflexivity.
  - destruct Hiff as [Hiff _]. discriminate Hiff; reflexivity.
  - destruct Hiff as [_ Hiff]. discriminate Hiff; reflexivity.
  - now rewrite Heq.
Qed.

(** The text a call returns is its lines joined by newlines, and no
    line is empty at its start. *)
Lemma generate_text_lines (fuel : nat) :
  forall directory prefix depth st b,
    generate fuel directory prefix depth st = Ok b ->
    fst (fst b) = String.concat NL (map ln_text (snd (fst b))) /\
    (forall L rest, snd (fst b) = L :: rest -> ln_text L <> "").
Proof.
  apply generate_ind with
    (PL := fun directory prefix depth n i entries st r =>
             String.concat NL (fst (fst r)) =
             String.concat NL (map ln_text (snd (fst r))) /\
             (fst (fst r) = [] <-> snd (fst r) = []) /\
             (forall L rest, snd (fst r) = L :: rest -> ln_text L <> ""));
    simpl.
  - intros. split; [reflexivity | congruence].
  - intros. tauto.
  - intros. repeat split; congruence.
  - intros. repeat split; try congruence.
    intros L r HL. injection HL as <- _. apply ELBOW_not_empty.
  - intros directory prefix depth n i entry rest st output after st'
      _ _ (IH1 & IH2 & _).
    repeat split; try congruence.
    + apply join_cons_congr; [assumption|].
      rewrite IH2. destruct after; simpl; split; congruence.
    + intros L r HL. injection HL as <- _.
      apply (entry_line_text directory prefix depth n i entry).
  - intros directory prefix depth n i entry rest st subtree below st1
      output after st' _ _ [Hsub Hfirst] (IH1 & IH2 & IH3).
    repeat split; try congruence.
    2:{ intros L r HL. injection HL as <- _.
        apply (entry_line_text directory prefix depth n i entry). }
    rewrite map_app.
    destruct below as [|b below].
    { simpl in Hsub. subst subtree. simpl.
      apply join_cons_congr; [assumption|].
      rewrite IH2. destruct after; simpl; split; congruence. }
    assert (Hne : subtree <> "").
    { rewrite Hsub. simpl map. apply join_not_empty.
      now apply (Hfirst b below). }
    apply String.eqb_neq in Hne. rewrite Hne.
    apply join_cons_congr; [|simpl; split; congruence].
    destruct after as [|a after].
    + destruct IH2 as [_ IH2]. rewrite (IH2 eq_refl).
      simpl map. rewrite !app_nil_r. simpl. exact Hsub.
    + assert (Ho : output <> []).
      { intros Ho. apply IH2 in Ho. discriminate. }
      rewrite !join_app by (simpl; congruence).
      simpl in IH1. rewrite IH1. simpl String.concat at 1.
      now rewrite Hsub.
Qed.

(** *** The counters *)

Lemma is_dir_not_file (p : Path) : is_dir p = true -> is_file p = false.
Proof. unfold is_dir, is_file. destruct (fs_kind fs p); congruence. Qed.

Lemma count_lines_cons (f : line -> bool) (L : line) (lines : list line) :
  count_lines f (L :: lines) =
  (if f L then 1 else 0) + count_lines f lines.
Proof.
  unfold count_lines. simpl. destruct (f L); simpl List.length; lia.
Qed.

Lemma count_lines_app (f : line -> bool) (l1 l2 : list line) :
  count_lines f (l1 ++ l2) = count_lines f l1 + count_lines f l2.
Proof.
  unfold count_lines. rewrite filter_app, length_app. lia.
Qed.

Lemma count_lines_nonneg (f : line -> bool) (lines : list line) :
  0 <= count_lines f lines.
Proof. unfold count_lines. lia. Qed.

(** The counters after an entry that is a directory or a regular file. *)
Lemma count_entry_counts (directory : Path) (prefix : string) (depth n i : Z)
    (entry : Path) (st : Counters) :
  is_dir entry || is_file entry = true ->
  file_count (count_entry entry st) =
    file_count st +
    (if is_file_line (entry_line directory prefix depth n i entry)
     then 1 else 0) /\
  dir_count (count_entry entry st) =
    dir_count st +
    (if is_dir_line (entry_line directory prefix depth n i entry)
     then 1 else 0).
Proof.
  unfold count_entry, is_file_line, is_dir_line, entry_line. simpl.
  intros H. destruct (is_dir entry) eqn:Hd.
  - rewrite (is_dir_not_file _ Hd). simpl. lia.
  - simpl in H. rewrite H. simpl. lia.
Qed.

(** Each counter grows by the number of lines of its sort: the counters
    are carried through the recursive calls and never set back. *)
Lemma generate_counters (fuel : nat) :
  forall directory prefix depth st b,
    generate fuel directory prefix depth st = Ok b ->
    file_count (snd b) =
      file_count st + count_lines is_file_line (snd (fst b)) /\
    dir_count (snd b) =
      dir_count st + count_lines is_dir_line (snd (fst b)).
Proof.
  apply generate_ind with
    (PL := fun directory prefix depth n i entries st r =>
             loop_at directory n i entries ->
             file_count (snd r) =
               file_count st + count_lines is_file_line (snd (fst r)) /\
             dir_count (snd r) =
               dir_count st + count_lines is_dir_line (snd (fst r)));
    simpl.
  - intros. unfold count_lines. simpl. lia.
  - intros directory prefix depth st entries output lines st' _ He HL.
    apply HL. now apply loop_at_start.
  - intros. unfold count_lines. simpl. lia.
  - intros. unfold count_lines. simpl. lia.
  - intros directory prefix depth n i entry rest st output after st'
      _ _ IH Hat.
    destruct (loop_at_step _ _ _ _ _ Hat) as [Hnext _].
    destruct (loop_at_entry _ _ _ _ _ Hat) as [_ Hkind].
    destruct (count_entry_counts directory prefix depth n i entry st Hkind)
      as [Hf Hd].
    destruct (IH Hnext) as [IHf IHd].
    rewrite !count_lines_cons. lia.
  - intros directory prefix depth n i entry rest st subtree below st1
      output after st' _ _ [Gf Gd] IH Hat.
    destruct (loop_at_step _ _ _ _ _ Hat) as [Hnext _].
    destruct (loop_at_entry _ _ _ _ _ Hat) as [_ Hkind].
    destruct (count_entry_counts directory prefix depth n i entry st Hkind)
      as [Hf Hd].
    destruct (IH Hnext) as [IHf IHd].
    rewrite !count_lines_cons, !count_lines_app. lia.
Qed.

(** The file counter never passes a limit it started below. *)
Lemma generate_within_limit (m : Z) (fuel : nat) :
  max_files config = Some m ->
  forall directory prefix depth st b,
    generate fuel directory prefix depth st = Ok b ->
    file_count st <= m -> file_count (snd b) <= m.
Proof.
  intros Hm.
  assert (Hstep : forall entry st,
            limit_reached st = false -> file_count (count_entry entry st) <= m).
  { intros entry st Hl. unfold limit_reached in Hl. rewrite Hm in Hl.
    apply Z.leb_gt in Hl. unfold count_entry.
    destruct (is_dir entry); simpl; lia. }
  refine (generate_ind
            (fun directory prefix depth st b =>
               file_count st <= m -> file_count (snd b) <= m)
            (fun directory prefix depth n i entries st r =>
               file_count st <= m -> file_count (snd r) <= m)
            _ _ _ _ _ _ fuel);
    simpl; auto.
Qed.

(** *** The lines of the file limit *)

Lemma StronglySorted_app (A : Type) (R : A -> A -> Prop) (l1 l2 : list A) :
  StronglySorted R l1 -> StronglySorted R l2 ->
  (forall a b, In a l1 -> In b l2 -> R a b) ->
  StronglySorted R (l1 ++ l2).
Proof.
  induction l1 as [|x l1 IH]; simpl; intros H1 H2 H12; [assumption|].
  inversion H1 as [|? ? Hs Hx]; subst.
  constructor.
  - apply IH; auto.
  - apply Forall_app. split; [assumption|].
    rewrite Forall_forall. intros b Hb. apply H12; auto.
Qed.

Lemma limit_shape_empty (depth : Z) (st : Counters) :
  limit_shape depth st [] st.
Proof.
  exists [], []. split; [reflexivity|].
  split; [constructor|]. split; [constructor|]. split; [constructor|].
  split; [congruence|]. intros _. repeat split; constructor.
Qed.

Lemma generate_limit_shape (fuel : nat) :
  forall directory prefix depth st b,
    generate fuel directory prefix depth st = Ok b ->
    limit_shape depth st (snd (fst b)) (snd b) /\
    (limit_reached st = true -> snd (fst b) = []).
Proof.
  apply generate_ind with
    (PL := fun directory prefix depth n i entries st r =>
             limit_shape depth st (snd (fst r)) (snd r));
    simpl.
  - intros directory prefix depth st _. split; [|reflexivity].
    apply limit_shape_empty.
  - intros directory prefix depth st entries output lines st' Ht _ HL.
    split; [assumption|].
    apply terminal_false in Ht as (_ & Hl & _). congruence.
  - intros. apply limit_shape_empty.
  - intros directory prefix depth n i entry rest st Hl.
    exists [], [limit_line directory prefix depth i].
    split; [reflexivity|]. split; [constructor|].
    split; [constructor; [simpl; split; [reflexivity|lia] | constructor]|].
    split; [constructor; constructor|].
    split; [intros _; assumption|].
    intros _. repeat split. constructor; [reflexivity | constructor].
  - intros directory prefix depth n i entry rest st output after st'
      Hl _ (es & ms & -> & Hes & Hms & Hss & Hne & _).
    exists (entry_line directory prefix depth n i entry :: es), ms.
    split; [reflexivity|].
    split; [constructor; [discriminate | assumption]|].
    split; [assumption|]. split; [assumption|]. split; [assumption|].
    congruence.
  - intros directory prefix depth n i entry rest st subtree below st1
      output after st' Hl _
      [(esb & msb & -> & Hesb & Hmsb & Hssb & Hneb & _) _]
      (esa & msa & -> & Hesa & Hmsa & Hssa & Hnea & Hlim).
    destruct msb as [|M msb].
    + exists (entry_line directory prefix depth n i entry :: esb ++ esa), msa.
      split; [rewrite app_nil_r; simpl; now rewrite <- app_assoc|].
      split; [constructor; [discriminate | apply Forall_app; auto]|].
      split; [assumption|]. split; [assumption|]. split; [assumption|].
      congruence.
    + assert (Hst1 : limit_reached st1 = true) by (apply Hneb; discriminate).
      destruct (Hlim Hst1) as (-> & -> & Hdepth).
      exists (entry_line directory prefix depth n i entry :: esb),
             ((M :: msb) ++ msa).
      split; [simpl; now rewrite <- app_assoc|].
      split; [constructor; [discriminate | assumption]|].
      split.
      { apply Forall_app. split; [|assumption].
        eapply Forall_impl; [|exact Hmsb]. simpl. intros a [Ha1 Ha2].
        split; [assumption | lia]. }
      split.
      { apply StronglySorted_app; try assumption.
        intros a b Ha Hb.
        rewrite Forall_forall in Hmsb, Hdepth.
        destruct (Hmsb a Ha) as [_ Hda]. rewrite (Hdepth b Hb). lia. }
      split; [intros _; assumption|].
      congruence.
Qed.

(** *** The prefix of a line and the line of its directory *)

Lemma prefixed_incl (root : Path) (prefix : string) (depth : Z)
    (l1 l2 : list line) (C : line) :
  incl l1 l2 -> prefixed root prefix depth l1 C ->
  prefixed root prefix depth l2 C.
Proof.
  intros Hincl [H|(P & all & HP & H)]; [now left|].
  right. exists P, all. split; [now apply Hincl | assumption].
Qed.

Lemma generate_prefixed (fuel : nat) :
  forall directory prefix depth st b,
    generate fuel directory prefix depth st = Ok b ->
    forall C, In C (snd (fst b)) ->
      prefixed directory prefix depth (snd (fst b)) C.
Proof.
  refine (generate_ind
            (fun directory prefix depth st b =>
               forall C, In C (snd (fst b)) ->
                 prefixed directory prefix depth (snd (fst b)) C)
            (fun directory prefix depth n i entries st r =>
               loop_at directory n i entries ->
               forall C, In C (snd (fst r)) ->
                 prefixed directory prefix depth (snd (fst r)) C)
            _ _ _ _ _ _ fuel);
    simpl.
  - intros directory prefix depth st _ C [].
  - intros directory prefix depth st entries output lines st' _ He HL.
    apply HL. now apply loop_at_start.
  - intros directory prefix depth n i st _ C [].
  - intros directory prefix depth n i entry rest st _ _ C [<-|[]].
    left. repeat split.
  - intros directory prefix depth n i entry rest st output after st'
      _ _ IH Hat C [<-|HC].
    + left. repeat split.
    + destruct (loop_at_step _ _ _ _ _ Hat) as [Hnext _].
      eapply prefixed_incl; [|apply (IH Hnext C HC)].
      apply incl_tl, incl_refl.
  - intros directory prefix depth n i entry rest st subtree below st1
      output after st' _ _ G IH Hat C [<-|HC].
    + left. repeat split.
    + destruct (loop_at_step _ _ _ _ _ Hat)
        as [Hnext (all & Hall & Hn & _ & _)].
      apply in_app_or in HC as [HC|HC].
      * destruct (G C HC) as [(Hdir & Hpre & Hdep)|(P & all' & HP & H)].
        -- right. exists (entry_line directory prefix depth n i entry), all.
           split; [now left|]. simpl.
           split; [now rewrite Hdir|]. split; [assumption|].
           split; [assumption|].
           rewrite Hpre. unfold child_prefix. now subst n.
        -- right. exists P, all'. split; [|assumption].
           right. apply in_or_app. now left.
      * eapply prefixed_incl; [|apply (IH Hnext C HC)].
        apply incl_tl, incl_appr, incl_refl.
Qed.

(** C6.  A call of [generate] at which a terminal condition holds (the
    depth limit is reached, the file limit is reached, the path is no
    directory) returns the empty block, emits no line and leaves the
    counters unchanged.  Hence, with [max_depth = k], every line of a
    top-level call comes from a directory that lies fewer than [k]
    levels below the root. *)
Theorem depth_limit :
  (forall fuel directory prefix depth st,
     terminal directory depth st = true ->
     generate (S fuel) directory prefix depth st = Ok ("", [], st)) /\
  (forall k fuel root prefix st text lines st',
     max_depth config = Some k ->
     generate fuel root prefix 0 st = Ok (text, lines, st') ->
     Forall (fun L => exists below,
                 ln_dir L = root ++ below /\
                 Z.of_nat (List.length below) = ln_depth L /\
                 ln_depth L < k) lines).
Proof.
  split.
  - intros. now apply generate_terminal.
  - intros k fuel root prefix st text lines st' Hk H.
    destruct (generate_lines_wf _ _ _ _ _ _ H) as [Hwf Hpl]. simpl in *.
    rewrite Forall_forall in *. intros L HL.
    destruct (Hpl L HL) as (below & Hb1 & Hb2).
    destruct (Hwf L HL) as (Hd & _).
    exists below. repeat split; [assumption | lia |].
    unfold depth_reached in Hd. rewrite Hk in Hd.
    apply Z.leb_gt in Hd. exact Hd.
Qed.

Lemma limit_lines_distinct (root : Path) (depth : Z) :
  forall ms : list line,
    StronglySorted (fun a b => ln_depth b < ln_depth a) ms ->
    Forall (placed root depth) ms ->
    NoDup (map ln_dir ms).
Proof.
  induction ms as [|M ms IH]; simpl; intros Hs Hp; [constructor|].
  inversion Hs as [|? ? Hs' HM]; inversion Hp as [|? ? HpM Hp']; subst.
  constructor; [|now apply IH].
  intros Hin. apply in_map_iff in Hin as [M' [Hdir HM']].
  rewrite Forall_forall in HM, Hp'.
  pose proof (HM M' HM') as Hlt.
  destruct HpM as (b1 & E1 & L1). destruct (Hp' M' HM') as (b2 & E2 & L2).
  rewrite E1, E2 in Hdir. apply app_inv_head in Hdir. subst b2. lia.
Qed.

(** C1.  With [max_files = m] (a count, so [0 <= m]) a top-level call of
    [generate] emits at most [m] lines of regular files over the whole
    walk, and its file counter ends at their number.  The lines that
    report the limit come last in the block, after every entry line; each
    shows the elbow connector, and no two of them belong to the same
    directory. *)
Theorem file_limit (m : Z) (fuel : nat) (root : Path) (prefix : string)
    (depth : Z) (text : string) (lines : list line) (st' : Counters) :
  max_files config = Some m ->
  0 <= m ->
  generate fuel root prefix depth fresh = Ok (text, lines, st') ->
  count_lines is_file_line lines <= m /\
  file_count st' = count_lines is_file_line lines /\
  exists es ms,
    lines = es ++ ms /\
    Forall (fun L => ln_entry L <> None) es /\
    Forall (fun M => ln_entry M = None /\
                     ln_connector M = ELBOW /\
                     ln_text M = ln_prefix M +++ ELBOW +++ LIMIT_TEXT) ms /\
    StronglySorted (fun a b => ln_depth b < ln_depth a) ms /\
    NoDup (map ln_dir ms).
Proof.
  intros Hm Hpos H.
  destruct (generate_counters _ _ _ _ _ _ H) as [Hf _].
  pose proof (generate_within_limit m fuel Hm _ _ _ _ _ H) as Hle.
  destruct (generate_lines_wf _ _ _ _ _ _ H) as [Hwf Hpl].
  destruct (generate_limit_shape _ _ _ _ _ _ H)
    as [(es & ms & Hlines & Hes & Hms & Hss & _) _].
  simpl in *.
  split; [lia|]. split; [lia|].
  exists es, ms. subst lines.
  apply Forall_app in Hwf as [_ Hwf]. apply Forall_app in Hpl as [_ Hpl].
  repeat split; try assumption.
  - rewrite Forall_forall in *. intros M HM.
    destruct (Hms M HM) as [Hnone _].
    destruct (Hwf M HM) as (_ & _ & all & _ & Hshape).
    rewrite Hnone in Hshape. rewrite Hshape. simpl. auto.
  - now apply limit_lines_distinct with (root := root) (depth := depth).
Qed.

(** *** The sibling list as rendered *)

Lemma loop_at_last (directory : Path) (n i : Z) (entry : Path)
    (rest : list Path) :
  loop_at directory n i (entry :: rest) ->
  (i =? n - 1) = match rest with [] => true | _ :: _ => false end.
Proof.
  intros (all & _ & -> & Hi & Hent).
  apply (f_equal (@List.length Path)) in Hent.
  rewrite length_skipn in Hent. simpl in Hent.
  destruct rest; simpl in Hent; [apply Z.eqb_eq | apply Z.eqb_neq]; lia.
Qed.

Lemma own_lines_below (depth : Z) (lines : list line) :
  Forall (fun L => depth + 1 <= ln_depth L) lines ->
  own_lines depth lines = [].
Proof.
  induction 1 as [|L lines HL _ IH]; [reflexivity|].
  unfold own_lines in *. simpl. rewrite IH.
  destruct (Z.eqb_spec (ln_depth L) depth); [lia | reflexivity].
Qed.

Lemma own_lines_here (directory : Path) (prefix : string) (depth n i : Z)
    (entry : Path) (lines : list line) :
  own_lines depth (entry_line directory prefix depth n i entry :: lines) =
  entry_line directory prefix depth n i entry :: own_lines depth lines.
Proof. unfold own_lines. simpl. now rewrite Z.eqb_refl. Qed.

(** The lines a call emits for its own directory show the tee, all but
    the last of them, which shows the elbow. *)
Lemma generate_own_lines (fuel : nat) :
  forall directory prefix depth st b,
    generate fuel directory prefix depth st = Ok b ->
    Forall (fun L => depth <= ln_depth L) (snd (fst b)) /\
    tee_then_elbow (own_lines depth (snd (fst b))).
Proof.
  refine (generate_ind
            (fun directory prefix depth st b =>
               Forall (fun L => depth <= ln_depth L) (snd (fst b)) /\
               tee_then_elbow (own_lines depth (snd (fst b))))
            (fun directory prefix depth n i entries st r =>
               loop_at directory n i entries ->
               Forall (fun L => depth <= ln_depth L) (snd (fst r)) /\
               tee_then_elbow (own_lines depth (snd (fst r))) /\
               (entries = [] -> snd (fst r) = []) /\
               (entries <> [] -> own_lines depth (snd (fst r)) <> []))
            _ _ _ _ _ _ fuel);
    cbn [fst snd].
  - intros. split; constructor.
  - intros directory prefix depth st entries output lines st' _ He HL.
    destruct (HL (loop_at_start _ _ He)) as (H1 & H2 & _). auto.
  - intros. repeat split; try constructor; congruence.
  - intros directory prefix depth n i entry rest st _ _.
    unfold own_lines. simpl. rewrite Z.eqb_refl. simpl.
    repeat split; try congruence.
    constructor; [simpl; lia | constructor].
  - intros directory prefix depth n i entry rest st output after st'
      _ _ IH Hat.
    destruct (loop_at_step _ _ _ _ _ Hat) as [Hnext _].
    pose proof (loop_at_last _ _ _ _ _ Hat) as Hlast.
    destruct (IH Hnext) as (H1 & H2 & H3 & H4).
    rewrite own_lines_here.
    repeat split; try congruence.
    + constructor; [simpl; lia | assumption].
    + destruct rest as [|e2 rest].
      * rewrite (H3 eq_refl). simpl. now rewrite Hlast.
      * simpl. rewrite Hlast.
        destruct (own_lines depth after) eqn:Hown;
          [exfalso; apply H4; congruence | auto].
  - intros directory prefix depth n i entry rest st subtree below st1
      output after st' _ _ [G1 _] IH Hat.
    destruct (loop_at_step _ _ _ _ _ Hat) as [Hnext _].
    pose proof (loop_at_last _ _ _ _ _ Hat) as Hlast.
    destruct (IH Hnext) as (H1 & H2 & H3 & H4).
    rewrite own_lines_here.
    assert (Hown : own_lines depth (below ++ after) = own_lines depth after).
    { unfold own_lines. rewrite filter_app.
      fold (own_lines depth below). now rewrite (own_lines_below _ _ G1). }
    rewrite Hown.
    repeat split; try congruence.
    + constructor; [simpl; lia|].
      apply Forall_app. split; [|assumption].
      eapply Forall_impl; [|exact G1]. simpl. intros; lia.
    + destruct rest as [|e2 rest].
      * rewrite (H3 eq_refl). simpl. now rewrite Hlast.
      * simpl. rewrite Hlast.
        destruct (own_lines depth after) eqn:Hown';
          [exfalso; apply H4; congruence | auto].
Qed.

(** C2.  The text a call returns is its lines joined by newlines.  Of
    the lines a call emits for the entries of its directory the last
    shows the elbow and every other the tee.  The line of an entry is its
    prefix, its connector and its formatted name, and the connector is
    the elbow when the entry is the last of the list that [_get_entries]
    gave for its directory, the tee otherwise.  The prefix of a line is
    the prefix of the call for the entries of the root; below, it is the
    prefix of the line of its directory and one more segment: blank when
    that line is the last of its list, a pipe otherwise. *)
Theorem connectors (fuel : nat) (root : Path) (prefix : string) (depth : Z)
    (st : Counters) (text : string) (lines : list line) (st' : Counters) :
  generate fuel root prefix depth st = Ok (text, lines, st') ->
  text = String.concat NL (map ln_text lines) /\
  tee_then_elbow (own_lines depth lines) /\
  Forall (fun L => forall e, ln_entry L = Some e ->
            exists all,
              _get_entries (ln_dir L) = Ok all /\
              0 <= ln_index L /\
              nth_error all (Z.to_nat (ln_index L)) = Some e /\
              ln_connector L =
                (if ln_index L =? Z.of_nat (List.length all) - 1
                 then ELBOW else TEE) /\
              ln_text L = ln_prefix L +++ ln_connector L +++ _format_entry e)
         lines /\
  Forall (fun C =>
            (ln_dir C = root /\ ln_prefix C = prefix /\ ln_depth C = depth) \/
            exists P all,
              In P lines /\
              ln_entry P = Some (ln_dir C) /\
              _get_entries (ln_dir P) = Ok all /\
              ln_depth C = ln_depth P + 1 /\
              ln_prefix C =
                ln_prefix P +++
                (if ln_index P =? Z.of_nat (List.length all) - 1
                 then BLANK else PIPE))
         lines.
Proof.
  intros H.
  destruct (generate_text_lines _ _ _ _ _ _ H) as [Htext _].
  destruct (generate_lines_wf _ _ _ _ _ _ H) as [Hwf _].
  pose proof (generate_prefixed _ _ _ _ _ _ H) as Hpre.
  destruct (generate_own_lines _ _ _ _ _ _ H) as [_ Hown].
  simpl in *. split; [assumption|]. split; [assumption|]. split.
  - rewrite Forall_forall in *. intros L HL e He.
    destruct (Hwf L HL) as (_ & _ & all & Hall & Hshape).
    rewrite He in Hshape. destruct Hshape as (Hnth & Hi & Heq).
    pose proof (f_equal ln_text Heq) as Ht.
    pose proof (f_equal ln_connector Heq) as Hc. simpl in Ht, Hc.
    exists all. repeat split; try assumption.
    rewrite Hc. exact Ht.
  - rewrite Forall_forall. intros C HC. exact (Hpre C HC).
Qed.

(** The two segments differ, hence the segment tells whether the line
    above was the last of its list. *)
Lemma child_prefix_blank_iff (prefix : string) (n i : Z) :
  child_prefix prefix n i = prefix +++ BLANK <-> i = n - 1.
Proof.
  unfold child_prefix. destruct (Z.eqb_spec i (n - 1)) as [E|E].
  - tauto.
  - split; [|tauto]. intros H. exfalso.
    induction prefix as [|c prefix IH]; simpl in H; [discriminate|].
    injection H as H. auto.
Qed.

(** C9.  Under every configuration the entries that [_get_entries]
    returns, and so the entries of the lines of a block, are directories
    or regular files; and each counter grows by the number of lines of
    its sort, so that nothing else is counted. *)
Theorem only_dirs_and_files :
  (forall directory entries,
     _get_entries directory = Ok entries ->
     Forall (fun e => is_dir e || is_file e = true) entries) /\
  (forall fuel directory prefix depth st text lines st',
     generate fuel directory prefix depth st = Ok (text, lines, st') ->
     Forall (fun L => forall e, ln_entry L = Some e ->
                        is_dir e || is_file e = true) lines /\
     file_count st' = file_count st + count_lines is_file_line lines /\
     dir_count st' = dir_count st + count_lines is_dir_line lines).
Proof.
  split; [exact get_entries_dir_or_file|].
  intros fuel directory prefix depth st text lines st' H.
  destruct (generate_counters _ _ _ _ _ _ H) as [Hf Hd].
  destruct (generate_lines_wf _ _ _ _ _ _ H) as [Hwf _].
  simpl in *. repeat split; try assumption.
  rewrite Forall_forall in *. intros L HL e He.
  destruct (Hwf L HL) as (_ & _ & all & Hall & Hshape).
  rewrite He in Hshape. destruct Hshape as (Hnth & _).
  apply nth_error_In in Hnth.
  pose proof (get_entries_dir_or_file _ _ Hall) as Hk.
  rewrite Forall_forall in Hk. now apply Hk.
Qed.

(** C10.  When [follow_links] is off, the loop at a symbolic link to a
    directory emits the line of the entry, whose text ends with a slash,
    adds one to the directory counter and nothing to the file counter,
    and goes on with the next entry: whatever a recursive call would
    give, none is made, and no line comes from below the link. *)
Theorem symlink_dir_not_followed
    (g : Path -> string -> Z -> Counters -> result block)
    (directory : Path) (prefix : string) (depth n i : Z)
    (entry : Path) (rest : list Path) (st : Counters) :
  follow_links config = false ->
  is_dir entry = true ->
  is_symlink entry = true ->
  limit_reached st = false ->
  let here := entry_line directory prefix depth n i entry in
  let st1 := {| file_count := file_count st; dir_count := dir_count st + 1 |} in
  generate_loop g directory prefix depth n i (entry :: rest) st =
    ('(output, after, st') <-
       generate_loop g directory prefix depth n (i + 1) rest st1 ;;
     Ok (ln_text here :: output, here :: after, st')) /\
  exists annotation,
    ln_text here =
    prefix +++ ln_connector here +++ annotation +++
    (if full_path config then path_str entry else name entry) +++ "/".
Proof.
  intros Hfollow Hdir Hlink Hlim. simpl. split.
  - cbn [generate_loop]. rewrite Hlim, Hdir, Hfollow, Hlink. simpl.
    unfold count_entry. rewrite Hdir. reflexivity.
  - unfold _format_entry. rewrite Hdir, (is_dir_not_file _ Hdir).
    rewrite andb_false_r.
    destruct (show_permissions config).
    + destruct (stat entry) as [s|e]; simpl.
      * exists ("[" +++ last_chars 3 (OctalString.of_Z (st_mode s)) +++ "] ").
        now rewrite !append_assoc.
      * now exists "".
    + now exists "".
Qed.

(* ================================================================== *)
(** ** Formatting an entry *)

(** When the metadata of an entry cannot be read, its text carries no
    annotation. *)
Lemma format_entry_stat_failure (path : Path) (e : exn) :
  stat path = Raise e ->
  _format_entry path = base_text path.
Proof.
  intros H. unfold _format_entry, base_text. rewrite H. simpl.
  destruct (show_size config && is_file path), (show_permissions config);
    reflexivity.
Qed.

(* ================================================================== *)
(** ** More on the ignore policy *)

Lemma gitignore_loop_no_slash (path : Path) :
  forall patterns,
    Forall (fun p => contains "/" (rstrip "/" p) = false) patterns ->
    gitignore_loop path patterns =
    Ok (existsb (fun p => fnmatch (name path) (rstrip "/" p)) patterns).
Proof.
  induction 1 as [|p patterns Hp _ IH]; simpl; [reflexivity|].
  unfold gitignore_step. rewrite Hp.
  destruct (fnmatch (name path) (rstrip "/" p)); simpl; [reflexivity | exact IH].
Qed.

(** X1.  When [use_gitignore] is off, or no loaded pattern holds a
    slash once its trailing slashes are stripped, [_should_ignore] never
    raises, wherever the entry lies: it returns whether the entry is
    hidden, or its base name matches a custom pattern or a loaded
    pattern. *)
Theorem should_ignore_without_slash (path : Path) :
  use_gitignore config = false \/
  Forall (fun p => contains "/" (rstrip "/" p) = false)
         (gitignore_patterns config) ->
  _should_ignore path = Ok (three_rules path).
Proof.
  intros H.
  unfold _should_ignore, three_rules, hidden_rule, custom_rule,
    gitignore_name_rule.
  destruct (negb (show_hidden config) && startswith (name path) ".");
    [reflexivity|].
  destruct (existsb (fnmatch (name path)) (custom_ignore config));
    [reflexivity|].
  destruct (use_gitignore config) eqn:Hg; simpl; [|reflexivity].
  destruct H as [H|H]; [discriminate|].
  now apply gitignore_loop_no_slash.
Qed.

Lemma existsb_same_elements (A : Type) (f : A -> bool) (l l' : list A) :
  (forall x, In x l <-> In x l') -> existsb f l = existsb f l'.
Proof.
  intros H.
  assert (Himp : forall l1 l2 : list A,
            (forall x, In x l1 -> In x l2) ->
            existsb f l1 = true -> existsb f l2 = true).
  { intros l1 l2 Hin E. apply existsb_exists in E as [x [Hx Hf]].
    apply existsb_exists. exists x. split; [now apply Hin | assumption]. }
  destruct (existsb f l) eqn:E, (existsb f l') eqn:E'; try reflexivity.
  - rewrite (Himp l l') in E'; [discriminate | apply H | assumption].
  - rewrite (Himp l' l) in E; [discriminate | apply H | assumption].
Qed.

(** X2.  For an entry below the working directory the verdict of the
    loop over the loaded patterns depends on which patterns the set
    holds, not on the order in which it is iterated. *)
Theorem gitignore_order_irrelevant (path : Path) (rel : list string)
    (patterns patterns' : list string) :
  relative_to path cwd = Ok rel ->
  (forall p, In p patterns <-> In p patterns') ->
  gitignore_loop path patterns = gitignore_loop path patterns'.
Proof.
  intros Hrel Hsame.
  rewrite !(gitignore_loop_under_cwd path rel Hrel).
  f_equal. now apply existsb_same_elements.
Qed.



(* ================================================================== *)
(** ** More on the listing *)

(** X4.  With [dirs_only] the list of [_get_entries] holds exactly the
    visible directories, also when [files_only] is set as well; with
    [files_only] alone it holds exactly the visible regular files.  In
    both cases it is sorted by the key. *)
Theorem get_entries_type_filter (directory : Path) (vis entries : list Path) :
  dirs_only config = true \/ files_only config = true ->
  visible directory = Ok vis ->
  _get_entries directory = Ok entries ->
  Permutation entries
    (filter (if dirs_only config then is_dir else is_file) vis) /\
  sorted_by _get_sort_key (reverse_sort config) entries.
Proof.
  intros Hflag Hvis H.
  pose proof (get_entries_listed _ _ _ Hvis H) as Hl.
  destruct (dirs_only config); [exact Hl|].
  destruct (files_only config); [exact Hl|].
  destruct Hflag; discriminate.
Qed.

Lemma relative_to_raises :
  forall (base path : Path) (e : exn),
    relative_to path base = Raise e -> e = ValueError.
Proof.
  induction base as [|b base IH]; intros [|c path] e H; simpl in H;
    try discriminate; try congruence.
  destruct (String.eqb c b); [eauto | congruence].
Qed.

(** The only exception of the ignore policy is the [ValueError] of
    [relative_to]. *)
Lemma should_ignore_raises (path : Path) (e : exn) :
  _should_ignore path = Raise e -> e = ValueError.
Proof.
  unfold _should_ignore.
  destruct (negb (show_hidden config) && startswith (name path) ".");
    [discriminate|].
  destruct (existsb (fnmatch (name path)) (custom_ignore config));
    [discriminate|].
  destruct (use_gitignore config); [|discriminate].
  induction (gitignore_patterns config) as [|p ps IH]; simpl;
    [discriminate|].
  unfold gitignore_step.
  destruct (fnmatch (name path) (rstrip "/" p)); simpl; [discriminate|].
  destruct (contains "/" (rstrip "/" p)); simpl; [|exact IH].
  destruct (relative_to path cwd) as [rel|ex] eqn:Hr; simpl.
  - destruct (fnmatch (rel_str rel) (rstrip "/" p)); [discriminate | exact IH].
  - intros H. injection H as <-. eapply relative_to_raises; eassumption.
Qed.

Lemma filterM_raises (A : Type) (f : A -> result bool) :
  forall l e, filterM f l = Raise e -> exists x, In x l /\ f x = Raise e.
Proof.
  induction l as [|a l IH]; simpl; intros e H; [discriminate|].
  destruct (f a) as [b|ex] eqn:Ha; simpl in H.
  - destruct (filterM f l) as [ys|ex] eqn:E; simpl in H; [discriminate|].
    injection H as <-. destruct (IH _ eq_refl) as [x [Hx Hf]]. eauto.
  - injection H as <-. eauto.
Qed.

(** A listing of the system that succeeds is never taken for a denied
    one: the policy does not raise [PermissionError]. *)
Lemma visible_not_denied (directory : Path) (names : list string) :
  fs_listdir fs directory = Ok names ->
  visible directory <> Raise PermissionError.
Proof.
  intros Hnames Hvis. unfold visible, iterdir in Hvis.
  rewrite Hnames in Hvis. simpl in Hvis.
  apply filterM_raises in Hvis as [x [_ Hx]].
  destruct (_should_ignore x) as [b|ex] eqn:Hs; simpl in Hx; [discriminate|].
  injection Hx as ->. apply should_ignore_raises in Hs. discriminate.
Qed.

Lemma filterM_In_conv (A : Type) (f : A -> result bool) :
  forall l l' x,
    filterM f l = Ok l' -> In x l -> f x = Ok true -> In x l'.
Proof.
  induction l as [|a l IH]; simpl; intros l' x H Hin Hx; [destruct Hin|].
  apply bind_Ok_inv in H as [b [Hb H]].
  apply bind_Ok_inv in H as [ys [Hys H]]. injection H as <-.
  destruct Hin as [->|Hin].
  - rewrite Hx in Hb. injection Hb as <-. now left.
  - specialize (IH _ _ Hys Hin Hx). destruct b; [now right | assumption].
Qed.

Lemma get_entries_In_vis (directory : Path) (vis entries : list Path)
    (e : Path) :
  visible directory = Ok vis ->
  _get_entries directory = Ok entries ->
  (In e entries <-> In e vis /\ type_admitted e = true).
Proof.
  intros Hvis H. unfold type_admitted.
  pose proof (get_entries_listed _ _ _ Hvis H) as Hl.
  destruct (dirs_only config); [|destruct (files_only config)].
  - destruct Hl as [Hp _]. rewrite <- filter_In. split; intros Hin.
    + eapply Permutation_in; eassumption.
    + eapply Permutation_in; [symmetry|]; eassumption.
  - destruct Hl as [Hp _]. rewrite <- filter_In. split; intros Hin.
    + eapply Permutation_in; eassumption.
    + eapply Permutation_in; [symmetry|]; eassumption.
  - destruct Hl as (ds & fs' & -> & Hpd & Hpf & _).
    rewrite in_app_iff. split.
    + intros [Hin|Hin].
      * apply (Permutation_in _ Hpd) in Hin. apply filter_In in Hin as [? E].
        rewrite E. auto.
      * apply (Permutation_in _ Hpf) in Hin. apply filter_In in Hin as [? E].
        rewrite E, orb_true_r. auto.
    + intros [Hin Ht]. apply orb_true_iff in Ht as [Ht|Ht].
      * left. apply (Permutation_in _ (Permutation_sym Hpd)).
        now apply filter_In.
      * right. apply (Permutation_in _ (Permutation_sym Hpf)).
        now apply filter_In.
Qed.

(** X5.  When the system lists a directory and [_get_entries] returns,
    an entry is in the list exactly when it is a child that the system
    listed, the ignore policy does not exclude it, and its type is
    admitted: a directory with [dirs_only], else a regular file with
    [files_only], else either. *)
Theorem get_entries_membership (directory : Path) (names : list string)
    (entries : list Path) (e : Path) :
  fs_listdir fs directory = Ok names ->
  _get_entries directory = Ok entries ->
  (In e entries <->
   exists child,
     In child names /\ e = joinpath directory child /\
     _should_ignore e = Ok false /\ type_admitted e = true).
Proof.
  intros Hnames H.
  destruct (get_entries_visible _ _ H) as [[vis Hvis]|[Hvis _]].
  2:{ exfalso. exact (visible_not_denied directory names Hnames Hvis). }
  rewrite (get_entries_In_vis directory vis entries e Hvis H).
  unfold visible, iterdir in Hvis. rewrite Hnames in Hvis. simpl in Hvis.
  split.
  - intros [Hin Ht].
    destruct (filterM_In _ _ _ _ _ Hvis Hin) as [Hin' Hign].
    apply in_map_iff in Hin' as [child [<- Hchild]].
    exists child. repeat split; try assumption.
    apply bind_Ok_inv in Hign as [b [Hb Hign]].
    destruct b; [discriminate | assumption].
  - intros (child & Hchild & -> & Hign & Ht). split; [|assumption].
    eapply filterM_In_conv;
      [exact Hvis | | cbv beta; rewrite Hign; reflexivity].
    apply in_map_iff. eauto.
Qed.

(* ================================================================== *)
(** ** More on [generate] *)

(** X6.  Every entry that a block shows passed the ignore policy: with
    [show_hidden] off its base name does not start with a dot, and its
    base name matches no custom pattern. *)
Theorem rendered_not_ignored (fuel : nat) (directory : Path)
    (prefix : string) (depth : Z) (st : Counters) (text : string)
    (lines : list line) (st' : Counters) :
  generate fuel directory prefix depth st = Ok (text, lines, st') ->
  Forall (fun L => forall e, ln_entry L = Some e ->
            _should_ignore e = Ok false /\
            (show_hidden config = false -> startswith (name e) "." = false) /\
            existsb (fnmatch (name e)) (custom_ignore config) = false)
         lines.
Proof.
  intros H.
  destruct (generate_lines_wf _ _ _ _ _ _ H) as [Hwf _]. simpl in Hwf.
  rewrite Forall_forall in *. intros L HL e He.
  destruct (Hwf L HL) as (_ & _ & all & Hall & Hshape).
  rewrite He in Hshape. destruct Hshape as (Hnth & _).
  apply nth_error_In in Hnth.
  destruct (get_entries_In _ _ _ Hall Hnth) as (_ & _ & _ & _ & _ & Hign).
  split; [assumption|].
  unfold _should_ignore in Hign.
  destruct (show_hidden config); simpl in Hign.
  - destruct (existsb (fnmatch (name e)) (custom_ignore config));
      [discriminate|]. split; [discriminate | reflexivity].
  - destruct (startswith (name e) "."); [discriminate|].
    destruct (existsb (fnmatch (name e)) (custom_ignore config));
      [discriminate|]. split; reflexivity.
Qed.

Lemma sorted_nil (key : Path -> result sortkey) (reverse : bool) :
  sorted key reverse [] = Ok [].
Proof. reflexivity. Qed.

Lemma get_entries_empty_listing (directory : Path) :
  fs_listdir fs directory = Ok [] -> _get_entries directory = Ok [].
Proof.
  intros H. unfold _get_entries, iterdir. rewrite H. simpl.
  destruct (dirs_only config), (files_only config); reflexivity.
Qed.

(** X7.  A directory whose listing is denied is rendered like an empty
    one: the call returns the empty block and leaves the counters as
    they are, so that the walk goes on with the next entry. *)
Theorem generate_unreadable_or_empty (fuel : nat) (directory : Path)
    (prefix : string) (depth : Z) (st : Counters) :
  fs_listdir fs directory = Raise PermissionError \/
  fs_listdir fs directory = Ok [] ->
  generate (S fuel) directory prefix depth st = Ok ("", [], st).
Proof.
  intros H. rewrite generate_S.
  destruct (depth_reached depth); [reflexivity|].
  destruct (limit_reached st); [reflexivity|].
  destruct (negb (is_dir directory)); [reflexivity|].
  assert (He : _get_entries directory = Ok []).
  { destruct H as [H|H].
    - unfold _get_entries, iterdir. now rewrite H.
    - now apply get_entries_empty_listing. }
  rewrite He. reflexivity.
Qed.

(** X8.  The entries that a call shows for its own directory are the
    first entries of the list of [_get_entries], in its order and with
    none left out in between; a line of the file limit follows exactly
    when entries are left over, and without [max_files] none is. *)
Theorem siblings_in_listing_order (fuel : nat) (directory : Path)
    (prefix : string) (depth : Z) (st : Counters) (text : string)
    (lines : list line) (st' : Counters) :
  generate fuel directory prefix depth st = Ok (text, lines, st') ->
  terminal directory depth st = false ->
  exists entries shown rest,
    _get_entries directory = Ok entries /\
    entries = shown ++ rest /\
    map ln_entry (own_lines depth lines) =
      map Some shown ++ (match rest with [] => [] | _ :: _ => [None] end) /\
    (max_files config = None -> rest = []).
Proof.
  intros H Hterm.
  refine (proj2 (generate_ind
            (fun directory prefix depth st b =>
               Forall (fun L => depth <= ln_depth L) (snd (fst b)) /\
               (terminal directory depth st = false ->
                exists entries shown rest,
                  _get_entries directory = Ok entries /\
                  entries = shown ++ rest /\
                  map ln_entry (own_lines depth (snd (fst b))) =
                    map Some shown ++
                    (match rest with [] => [] | _ :: _ => [None] end) /\
                  (max_files config = None -> rest = [])))
            (fun directory prefix depth n i entries st r =>
               Forall (fun L => depth <= ln_depth L) (snd (fst r)) /\
               exists shown rest,
                 entries = shown ++ rest /\
                 map ln_entry (own_lines depth (snd (fst r))) =
                   map Some shown ++
                   (match rest with [] => [] | _ :: _ => [None] end) /\
                 (max_files config = None -> rest = []))
            _ _ _ _ _ _ fuel directory prefix depth st (text, lines, st') H)
          Hterm);
    cbn [fst snd]; clear.
  - intros directory prefix depth st Ht. split; [constructor | congruence].
  - intros directory prefix depth st entries output lines st' _ He
      (HF & shown & rest & H1 & H2 & H3).
    split; [assumption|]. intros _. exists entries, shown, rest. auto.
  - intros. split; [constructor|]. exists [], []. auto.
  - intros directory prefix depth n i entry rest st Hl.
    split; [constructor; [simpl; lia | constructor]|].
    exists [], (entry :: rest). split; [reflexivity|]. split.
    + unfold own_lines. simpl. now rewrite Z.eqb_refl.
    + intros Hnone. unfold limit_reached in Hl. rewrite Hnone in Hl.
      discriminate.
  - intros directory prefix depth n i entry rest st output after st'
      _ _ (HF & shown & rest' & -> & H2 & H3).
    split; [constructor; [simpl; lia | assumption]|].
    exists (entry :: shown), rest'. split; [reflexivity|]. split.
    + rewrite own_lines_here. simpl. now rewrite H2.
    + assumption.
  - intros directory prefix depth n i entry rest st subtree below st1
      output after st' _ _ [G1 _] (HF & shown & rest' & -> & H2 & H3).
    split.
    { constructor; [simpl; lia|]. apply Forall_app. split; [|assumption].
      eapply Forall_impl; [|exact G1]. simpl. intros; lia. }
    exists (entry :: shown), rest'. split; [reflexivity|]. split.
    + rewrite own_lines_here. unfold own_lines at 1. rewrite filter_app.
      fold (own_lines depth below) (own_lines depth after).
      rewrite (own_lines_below _ _ G1). simpl. now rewrite H2.
    + assumption.
Qed.

(** X9.  A line of the file limit is shown only when the budget is used
    up: in a top-level call with [max_files = m] whose block holds such
    a line, the lines of regular files number exactly [m]. *)
Theorem limit_line_exact (m : Z) (fuel : nat) (root : Path) (prefix : string)
    (depth : Z) (text : string) (lines : list line) (st' : Counters) :
  max_files config = Some m ->
  0 <= m ->
  generate fuel root prefix depth fresh = Ok (text, lines, st') ->
  (exists M, In M lines /\ ln_entry M = None) ->
  count_lines is_file_line lines = m.
Proof.
  intros Hm Hpos H (M & HM & Hnone).
  destruct (generate_counters _ _ _ _ _ _ H) as [Hf _].
  pose proof (generate_within_limit m fuel Hm _ _ _ _ _ H) as Hle.
  destruct (generate_limit_shape _ _ _ _ _ _ H)
    as [(es & ms & Hlines & Hes & _ & _ & Hne & _) _].
  simpl in *.
  assert (Hms : ms <> []).
  { subst lines. apply in_app_or in HM as [HM|HM].
    - rewrite Forall_forall in Hes. exfalso. now apply (Hes M HM).
    - intros ->. destruct HM. }
  specialize (Hne Hms). unfold limit_reached in Hne. rewrite Hm in Hne.
  apply Z.leb_le in Hne. lia.
Qed.

Lemma count_lines_zero (f : line -> bool) (lines : list line) :
  Forall (fun L => f L = false) lines -> count_lines f lines = 0.
Proof.
  induction 1 as [|L lines HL _ IH]; [reflexivity|].
  rewrite count_lines_cons, HL, IH. reflexivity.
Qed.

Lemma get_entries_all_dirs (directory : Path) (entries : list Path) :
  dirs_only config = true ->
  _get_entries directory = Ok entries ->
  Forall (fun e => is_dir e = true) entries.
Proof.
  intros Hd H.
  destruct (get_entries_visible _ _ H) as [[vis Hvis]|[_ ->]]; [|constructor].
  pose proof (get_entries_listed _ _ _ Hvis H) as Hl. rewrite Hd in Hl.
  destruct Hl as [Hp _].
  eapply Forall_perm; [exact Hp | apply Forall_filter_true].
Qed.

Lemma get_entries_all_files (directory : Path) (entries : list Path) :
  dirs_only config = false -> files_only config = true ->
  _get_entries directory = Ok entries ->
  Forall (fun e => is_file e = true) entries.
Proof.
  intros Hd Hf H.
  destruct (get_entries_visible _ _ H) as [[vis Hvis]|[_ ->]]; [|constructor].
  pose proof (get_entries_listed _ _ _ Hvis H) as Hl. rewrite Hd, Hf in Hl.
  destruct Hl as [Hp _].
  eapply Forall_perm; [exact Hp | apply Forall_filter_true].
Qed.

(** The entry of a line is in the list of its directory. *)
Lemma line_entry_listed (L : line) (e : Path) :
  line_wf L -> ln_entry L = Some e ->
  exists all, _get_entries (ln_dir L) = Ok all /\ In e all.
Proof.
  intros (_ & _ & all & Hall & Hshape) He. rewrite He in Hshape.
  destruct Hshape as (Hnth & _). exists all. split; [assumption|].
  eapply nth_error_In; eassumption.
Qed.

(** X10.  With [dirs_only] a block holds lines of directories only: no
    line of a regular file, no line of the file limit, and the file
    counter stays where it was. *)
Theorem dirs_only_block (fuel : nat) (directory : Path) (prefix : string)
    (depth : Z) (st : Counters) (text : string) (lines : list line)
    (st' : Counters) :
  dirs_only config = true ->
  generate fuel directory prefix depth st = Ok (text, lines, st') ->
  Forall (fun L => exists e, ln_entry L = Some e /\ is_dir e = true) lines /\
  file_count st' = file_count st.
Proof.
  intros Hd H.
  destruct (generate_counters _ _ _ _ _ _ H) as [Hf _].
  destruct (generate_lines_wf _ _ _ _ _ _ H) as [Hwf _].
  destruct (generate_limit_shape _ _ _ _ _ _ H)
    as [(es & ms & Hlines & Hes & Hms & _ & Hne & _) Hstart].
  simpl in *.
  assert (Hdirs : forall L e, In L lines -> ln_entry L = Some e ->
                              is_dir e = true).
  { intros L e HL He. rewrite Forall_forall in Hwf.
    destruct (line_entry_listed L e (Hwf L HL) He) as (all & Hall & Hin).
    pose proof (get_entries_all_dirs _ _ Hd Hall) as Hk.
    rewrite Forall_forall in Hk. now apply Hk. }
  assert (Hzero : count_lines is_file_line lines = 0).
  { apply count_lines_zero. rewrite Forall_forall. intros L HL.
    unfold is_file_line. destruct (ln_entry L) as [e|] eqn:He; [|reflexivity].
    apply is_dir_not_file. now apply (Hdirs L e). }
  assert (Hsame : file_count st' = file_count st) by lia.
  split; [|assumption].
  assert (Hnone : ms = []).
  { destruct ms as [|M ms]; [reflexivity|]. exfalso.
    assert (Hr : limit_reached st' = true) by (apply Hne; discriminate).
    unfold limit_reached in Hr, Hstart. rewrite Hsame in Hr.
    specialize (Hstart Hr). rewrite Hstart in Hlines.
    destruct es; discriminate. }
  subst ms. rewrite app_nil_r in Hlines. subst es.
  rewrite Forall_forall in *. intros L HL.
  destruct (ln_entry L) as [e|] eqn:He.
  - exists e. split; [reflexivity | now apply (Hdirs L e)].
  - exfalso. now apply (Hes L HL).
Qed.

(** X11.  With [files_only] (and without [dirs_only]) a block is flat:
    every line comes from the directory of the call, under its prefix
    and at its depth; nothing is entered, and the directory counter
    stays where it was. *)
Theorem files_only_block (fuel : nat) (directory : Path) (prefix : string)
    (depth : Z) (st : Counters) (text : string) (lines : list line)
    (st' : Counters) :
  files_only config = true ->
  dirs_only config = false ->
  generate fuel directory prefix depth st = Ok (text, lines, st') ->
  Forall (fun L => ln_dir L = directory /\ ln_prefix L = prefix /\
                   ln_depth L = depth) lines /\
  dir_count st' = dir_count st.
Proof.
  intros Hf Hd H. split.
  - refine (generate_ind
              (fun directory prefix depth st b =>
                 Forall (fun L => ln_dir L = directory /\
                                  ln_prefix L = prefix /\
                                  ln_depth L = depth) (snd (fst b)))
              (fun directory prefix depth n i entries st r =>
                 loop_at directory n i entries ->
                 Forall (fun L => ln_dir L = directory /\
                                  ln_prefix L = prefix /\
                                  ln_depth L = depth) (snd (fst r)))
              _ _ _ _ _ _ fuel directory prefix depth st (text, lines, st') H);
      cbn [fst snd]; clear - Hf Hd.
    + constructor.
    + intros directory prefix depth st entries output lines st' _ He HL.
      apply HL. now apply loop_at_start.
    + constructor.
    + intros. constructor; [repeat split | constructor].
    + intros directory prefix depth n i entry rest st output after st'
        _ _ IH Hat.
      destruct (loop_at_step _ _ _ _ _ Hat) as [Hnext _].
      constructor; [repeat split | now apply IH].
    + intros directory prefix depth n i entry rest st subtree below st1
        output after st' _ Hdesc _ _ Hat. exfalso.
      destruct (loop_at_step _ _ _ _ _ Hat) as [_ (all & Hall & _ & _ & Hnth)].
      apply nth_error_In in Hnth.
      pose proof (get_entries_all_files _ _ Hd Hf Hall) as Hk.
      rewrite Forall_forall in Hk. specialize (Hk entry Hnth).
      unfold descends in Hdesc. apply andb_true_iff in Hdesc as [Hdir _].
      rewrite (is_dir_not_file _ Hdir) in Hk. discriminate.
  - destruct (generate_counters _ _ _ _ _ _ H) as [_ Hdc].
    destruct (generate_lines_wf _ _ _ _ _ _ H) as [Hwf _]. simpl in *.
    rewrite Hdc, count_lines_zero; [lia|].
    rewrite Forall_forall in *. intros L HL. unfold is_dir_line.
    destruct (ln_entry L) as [e|] eqn:He; [|reflexivity].
    destruct (line_entry_listed L e (Hwf L HL) He) as (all & Hall & Hin).
    pose proof (get_entries_all_files _ _ Hd Hf Hall) as Hk.
    rewrite Forall_forall in Hk. specialize (Hk e Hin).
    unfold is_dir, is_file in *. destruct (fs_kind fs e); congruence.
Qed.

Lemma count_lines_split (f g h : line -> bool) (lines : list line) :
  Forall (fun L => (if f L then 1 else 0) + (if g L then 1 else 0) =
                   (if h L then 1 else 0)) lines ->
  count_lines f lines + count_lines g lines = count_lines h lines.
Proof.
  induction 1 as [|L lines HL _ IH]; [reflexivity|].
  rewrite !count_lines_cons. lia.
Qed.

(** X12.  The counters never go down, and together they grow by exactly
    the number of entry lines of the block: every entry shown is counted
    once, as a directory or as a file, and a line of the file limit is
    not counted. *)
Theorem counters_count_entry_lines (fuel : nat) (directory : Path)
    (prefix : string) (depth : Z) (st : Counters) (text : string)
    (lines : list line) (st' : Counters) :
  generate fuel directory prefix depth st = Ok (text, lines, st') ->
  file_count st <= file_count st' /\
  dir_count st <= dir_count st' /\
  (file_count st' - file_count st) + (dir_count st' - dir_count st) =
    count_lines is_entry_line lines.
Proof.
  intros H.
  destruct (generate_counters _ _ _ _ _ _ H) as [Hf Hd].
  destruct (generate_lines_wf _ _ _ _ _ _ H) as [Hwf _]. simpl in *.
  pose proof (count_lines_nonneg is_file_line lines).
  pose proof (count_lines_nonneg is_dir_line lines).
  split; [lia|]. split; [lia|].
  rewrite <- (count_lines_split is_file_line is_dir_line is_entry_line);
    [lia|].
  rewrite Forall_forall in *. intros L HL.
  unfold is_file_line, is_dir_line, is_entry_line.
  destruct (ln_entry L) as [e|] eqn:He; [|reflexivity].
  destruct (line_entry_listed L e (Hwf L HL) He) as (all & Hall & Hin).
  pose proof (get_entries_dir_or_file _ _ Hall) as Hk.
  rewrite Forall_forall in Hk. specialize (Hk e Hin).
  unfold is_dir, is_file in *. destruct (fs_kind fs e); simpl in *;
    try reflexivity; discriminate.
Qed.

Lemma append_empty_r (s : string) : s +++ "" = s.
Proof. induction s as [|a s IH]; simpl; [reflexivity | now rewrite IH]. Qed.

(** X13.  The prefix of a line is the prefix of the call followed by one
    segment, blank or pipe, for each level between the directory of the
    call and the directory of the line. *)
Theorem prefix_segments (fuel : nat) (directory : Path) (prefix : string)
    (depth : Z) (st : Counters) (text : string) (lines : list line)
    (st' : Counters) :
  generate fuel directory prefix depth st = Ok (text, lines, st') ->
  Forall (fun L => exists segs,
            ln_prefix L = prefix +++ segs /\
            segments (Z.to_nat (ln_depth L - depth)) segs) lines.
Proof.
  intros H.
  pose (P := fun (prefix : string) (depth : Z) (L : line) =>
               depth <= ln_depth L /\
               exists segs,
                 ln_prefix L = prefix +++ segs /\
                 segments (Z.to_nat (ln_depth L - depth)) segs).
  assert (Hhere : forall prefix depth (L : line),
            ln_prefix L = prefix -> ln_depth L = depth -> P prefix depth L).
  { intros p k L Hp Hk. split; [lia|]. exists "".
    rewrite append_empty_r, Hk, Z.sub_diag. now split. }
  assert (HP : Forall (P prefix depth) lines).
  { refine (generate_ind
              (fun directory prefix depth st b =>
                 Forall (P prefix depth) (snd (fst b)))
              (fun directory prefix depth n i entries st r =>
                 Forall (P prefix depth) (snd (fst r)))
              _ _ _ _ _ _ fuel directory prefix depth st (text, lines, st') H);
      cbn [fst snd]; clear - Hhere.
    - constructor.
    - auto.
    - constructor.
    - intros. constructor; [now apply Hhere | constructor].
    - intros. constructor; [now apply Hhere | assumption].
    - intros directory prefix depth n i entry rest st subtree below st1
        output after st' _ _ G IH.
      constructor; [now apply Hhere|].
      apply Forall_app. split; [|assumption].
      eapply Forall_impl; [|exact G].
      intros L (Hd & segs & Hp & Hs). split; [lia|].
      exists ((if i =? n - 1 then BLANK else PIPE) +++ segs). split.
      + rewrite Hp. unfold child_prefix. apply append_assoc.
      + replace (Z.to_nat (ln_depth L - depth))
          with (S (Z.to_nat (ln_depth L - (depth + 1)))) by lia.
        simpl. exists (if i =? n - 1 then BLANK else PIPE), segs.
        split; [destruct (i =? n - 1); auto | auto]. }
  eapply Forall_impl; [|exact HP]. intros L [_ HL]. exact HL.
Qed.

(* ================================================================== *)
(** ** [main] *)


(** X15.  For a valid root on which [generate] returns, the standard
    output is the root line, the lines of the tree, an empty line and
    the summary; the numbers of the summary are the numbers of the
    directory lines and of the file lines shown above it, and the files
    are left out of the summary with [dirs_only]. *)
Theorem main_summary (resolve : string -> Path) (exists_ : Path -> bool)
    (fuel : nat) (args : Args) (tree : string) (lines : list line)
    (generator : Counters) :
  let root_path := resolve (arg_path args) in
  exists_ root_path = true ->
  is_dir root_path = true ->
  generate fuel root_path "" 0 fresh = Ok (tree, lines, generator) ->
  stdout (main resolve exists_ fuel args) =
    path_str root_path +++ "/" +++ NL +++
    (match lines with
     | [] => ""
     | _ :: _ => String.concat NL (map ln_text lines) +++ NL
     end) +++
    NL +++
    str_of_Z (count_lines is_dir_line lines) +++ " directories" +++
    (if dirs_only config then ""
     else ", " +++ str_of_Z (count_lines is_file_line lines) +++ " files") +++
    NL.
Proof.
  cbv zeta. intros Hex Hdir H. unfold main. rewrite Hex, Hdir, H.
  cbn [negb stdout].
  destruct (generate_counters _ _ _ _ _ _ H) as [Hf Hd].
  destruct (generate_text_lines _ _ _ _ _ _ H) as [Htext Hfirst].
  cbn [fst snd] in Hf, Hd, Htext, Hfirst.
  change (file_count fresh) with 0 in Hf. change (dir_count fresh) with 0 in Hd.
  rewrite Hf, Hd, !Z.add_0_l. clear Hf Hd H.
  set (root := path_str (resolve (arg_path args))).
  assert (Htree :
    (if String.eqb tree "" then print "" (root +++ "/")
     else print (print "" (root +++ "/")) tree) =
    root +++ "/" +++ NL +++
    match lines with
    | [] => ""
    | _ :: _ => String.concat NL (map ln_text lines) +++ NL
    end).
  { destruct lines as [|L lines].
    - cbn [map String.concat] in Htext. subst tree.
      rewrite String.eqb_refl. unfold print.
      rewrite !append_assoc, append_empty_r. reflexivity.
    - assert (Hne : tree <> "").
      { rewrite Htext. cbn [map]. apply join_not_empty.
        now apply (Hfirst L lines). }
      apply String.eqb_neq in Hne. rewrite Hne, <- Htext.
      unfold print. rewrite !append_assoc. reflexivity. }
  rewrite Htree. unfold print.
  destruct (dirs_only config); cbn [negb]; rewrite !append_assoc;
    reflexivity.
Qed.

(* ================================================================== *)
(** ** The patterns of [.gitignore] *)

Lemma set_add_In (x p : string) (s : list string) :
  In p (set_add x s) <-> p = x \/ In p s.
Proof.
  unfold set_add. destruct (existsb (String.eqb x) s) eqn:E.
  - split; [auto|]. intros [->|H]; [|assumption].
    apply existsb_exists in E as [y [Hy Hxy]].
    apply String.eqb_eq in Hxy. now subst.
  - rewrite in_app_iff. simpl. split.
    + intros [H|[H|[]]]; auto.
    + intros [->|H]; auto.
Qed.

Lemma load_lines_keeps (strip : string -> string) (p : string) :
  forall (lines patterns : list string),
    In p patterns -> In p (load_lines strip lines patterns).
Proof.
  induction lines as [|line lines IH]; intros patterns Hin; simpl;
    [assumption|].
  destruct (negb (String.eqb (strip line) "") &&
            negb (startswith (strip line) "#"));
    apply IH; [apply set_add_In; now right | assumption].
Qed.

Lemma load_lines_loads (strip : string -> string) (line : string) :
  forall (lines patterns : list string),
    In line lines -> strip line <> "" -> startswith (strip line) "#" = false ->
    In (strip line) (load_lines strip lines patterns).
Proof.
  induction lines as [|l lines IH]; intros patterns Hin Hne Hc;
    [destruct Hin|].
  simpl. destruct Hin as [->|Hin].
  - apply String.eqb_neq in Hne. rewrite Hne, Hc. simpl.
    apply load_lines_keeps. apply set_add_In. now left.
  - destruct (negb (String.eqb (strip l) "") &&
              negb (startswith (strip l) "#")); now apply IH.
Qed.

(** X16.  After the lines of [.gitignore] are loaded, the set holds what
    it held before and, for every line that is neither blank nor a
    comment once stripped, the stripped line; nothing else.  No loaded
    pattern is empty or starts with a hash sign. *)
Theorem load_lines_In (strip : string -> string) (p : string) :
  forall (lines patterns : list string),
    In p (load_lines strip lines patterns) <->
    In p patterns \/
    exists line,
      In line lines /\ strip line = p /\
      p <> "" /\ startswith p "#" = false.
Proof.
  induction lines as [|line lines IH]; intros patterns; simpl.
  - split; [auto|]. intros [H|(l & [] & _)]. assumption.
  - destruct (String.eqb_spec (strip line) "") as [E|E]; simpl.
    { rewrite IH. split.
      - intros [H|(l & Hl & Hs & Hne & Hc)]; [auto|].
        right. exists l. auto.
      - intros [H|(l & [<-|Hl] & Hs & Hne & Hc)]; [auto | congruence |].
        right. exists l. auto. }
    destruct (startswith (strip line) "#") eqn:Hc; simpl.
    { rewrite IH. split.
      - intros [H|(l & Hl & Hs & Hne & Hc')]; [auto|].
        right. exists l. auto.
      - intros [H|(l & [<-|Hl] & Hs & Hne & Hc')]; [auto | congruence |].
        right. exists l. auto. }
    rewrite IH, set_add_In. split.
    + intros [[->|H]|(l & Hl & Hs & Hne & Hc')]; [ | auto | ].
      * right. exists line. auto.
      * right. exists l. auto.
    + intros [H|(l & [<-|Hl] & Hs & Hne & Hc')]; [auto | auto |].
      right. exists l. auto.
Qed.

(** A loaded pattern that matches the base name excludes an entry below
    the working directory. *)
Lemma should_ignore_pattern_hit (path : Path) (rel : list string)
    (p : string) :
  relative_to path cwd = Ok rel ->
  use_gitignore config = true ->
  In p (gitignore_patterns config) ->
  fnmatch (name path) (rstrip "/" p) = true ->
  _should_ignore path = Ok true.
Proof.
  intros Hrel Hg Hin Hm. unfold _should_ignore.
  destruct (negb (show_hidden config) && startswith (name path) ".");
    [reflexivity|].
  destruct (existsb (fnmatch (name path)) (custom_ignore config));
    [reflexivity|].
  rewrite Hg, (gitignore_loop_under_cwd path rel Hrel). f_equal.
  apply existsb_exists. exists p. split; [assumption|].
  cbv zeta. now rewrite Hm.
Qed.

(* ================================================================== *)
(** ** The size format *)

Lemma format_6_1f_tenths (num den : Z) :
  format_6_1f num den =
  pad_left 6 (str_of_Z (round_tenths num den / 10) +++ "." +++
              str_of_Z (round_tenths num den mod 10)).
Proof. reflexivity. Qed.

(** The tenths printed are the nearest to the quotient. *)
Lemma round_tenths_near (num den : Z) :
  0 < den ->
  2 * Z.abs (10 * num - round_tenths num den * den) <= den.
Proof.
  intros Hden. unfold round_tenths.
  pose proof (Z.div_mod (10 * num) den ltac:(lia)) as Hdm.
  pose proof (Z.mod_pos_bound (10 * num) den Hden) as Hr.
  set (q := 10 * num / den) in *. set (r := (10 * num) mod den) in *.
  destruct (Z.ltb_spec (2 * r) den); [nia|].
  destruct (Z.ltb_spec den (2 * r)); [nia|].
  destruct (Z.even q); nia.
Qed.

(** X17.  A size below 1024 is shown in bytes, as the number itself
    with the decimal [.0], right-aligned in six columns. *)
Theorem format_size_bytes (size : Z) :
  0 <= size < 1024 ->
  _format_size size = pad_left 6 (str_of_Z size +++ ".0") +++ " B".
Proof.
  intros [H0 H1]. unfold _format_size. cbn [format_size_loop].
  replace (size <? 1024 * 1) with true by (symmetry; apply Z.ltb_lt; lia).
  rewrite format_6_1f_tenths.
  assert (Ht : round_tenths size 1 = 10 * size).
  { unfold round_tenths. rewrite Z.div_1_r, Z.mod_1_r. reflexivity. }
  rewrite Ht, (Z.mul_comm 10 size).
  rewrite Z.div_mul by lia. rewrite Z.mod_mul by lia.
  reflexivity.
Qed.

(** X18.  A size (below 2^53, where the doubles of the source are
    exact) is shown in the unit of the largest power of 1024 not above
    it, from B up to PB, as the tenths nearest to the quotient: with [k]
    the index of the unit, [1024^k <= size] unless the unit is B,
    [size < 1024^(k+1)] unless the unit is PB, and the number shown, [t]
    tenths, differs from [size / 1024^k] by at most half a tenth. *)
Theorem format_size_unit (size : Z) :
  0 <= size < 2 ^ 53 ->
  exists (k : nat) (t : Z),
    (k <= 5)%nat /\
    _format_size size =
      pad_left 6 (str_of_Z (t / 10) +++ "." +++ str_of_Z (t mod 10)) +++
      " " +++ nth k UNITS "" /\
    (k = 0%nat \/ 1024 ^ Z.of_nat k <= size) /\
    (k = 5%nat \/ size < 1024 ^ (Z.of_nat k + 1)) /\
    2 * Z.abs (10 * size - t * 1024 ^ Z.of_nat k) <= 1024 ^ Z.of_nat k.
Proof.
  intros [H0 _]. unfold _format_size. cbn [format_size_loop].
  destruct (Z.ltb_spec size (1024 * (1))).
  { exists 0%nat, (round_tenths size (1)).
    change (1024 ^ Z.of_nat 0) with 1.
    change (1024 ^ (Z.of_nat 0 + 1)) with 1024.
    split; [lia|]. split; [rewrite format_6_1f_tenths; reflexivity|].
    split; [left; reflexivity|].
    split; [right; lia|].
    pose proof (round_tenths_near size (1) ltac:(lia)) as Hn. lia. }
  destruct (Z.ltb_spec size (1024 * (1024 * 1))).
  { exists 1%nat, (round_tenths size (1024 * 1)).
    change (1024 ^ Z.of_nat 1) with 1024.
    change (1024 ^ (Z.of_nat 1 + 1)) with 1048576.
    split; [lia|]. split; [rewrite format_6_1f_tenths; reflexivity|].
    split; [right; lia|].
    split; [right; lia|].
    pose proof (round_tenths_near size (1024 * 1) ltac:(lia)) as Hn. lia. }
  destruct (Z.ltb_spec size (1024 * (1024 * (1024 * 1)))).
  { exists 2%nat, (round_tenths size (1024 * (1024 * 1))).
    change (1024 ^ Z.of_nat 2) with 1048576.
    change (1024 ^ (Z.of_nat 2 + 1)) with 1073741824.
    split; [lia|]. split; [rewrite format_6_1f_tenths; reflexivity|].
    split; [right; lia|].
    split; [right; lia|].
    pose proof (round_tenths_near size (1024 * (1024 * 1)) ltac:(lia)) as Hn. lia. }
  destruct (Z.ltb_spec size (1024 * (1024 * (1024 * (1024 * 1))))).
  { exists 3%nat, (round_tenths size (1024 * (1024 * (1024 * 1)))).
    change (1024 ^ Z.of_nat 3) with 1073741824.
    change (1024 ^ (Z.of_nat 3 + 1)) with 1099511627776.
    split; [lia|]. split; [rewrite format_6_1f_tenths; reflexivity|].
    split; [right; lia|].
    split; [right; lia|].
    pose proof (round_tenths_near size (1024 * (1024 * (1024 * 1))) ltac:(lia)) as Hn. lia. }
  destruct (Z.ltb_spec size (1024 * (1024 * (1024 * (1024 * (1024 * 1)))))).
  { exists 4%nat, (round_tenths size (1024 * (1024 * (1024 * (1024 * 1))))).
    change (1024 ^ Z.of_nat 4) with 1099511627776.
    change (1024 ^ (Z.of_nat 4 + 1)) with 1125899906842624.
    split; [lia|]. split; [rewrite format_6_1f_tenths; reflexivity|].
    split; [right; lia|].
    split; [right; lia|].
    pose proof (round_tenths_near size (1024 * (1024 * (1024 * (1024 * 1)))) ltac:(lia)) as Hn. lia. }
  exists 5%nat, (round_tenths size (1024 * (1024 * (1024 * (1024 * (1024 * 1)))))).
    change (1024 ^ Z.of_nat 5) with 1125899906842624.
    change (1024 ^ (Z.of_nat 5 + 1)) with 1152921504606846976.
    split; [lia|]. split; [rewrite format_6_1f_tenths; reflexivity|].
    split; [right; lia|].
    split; [left; reflexivity|].
    pose proof (round_tenths_near size (1024 * (1024 * (1024 * (1024 * (1024 * 1))))) ltac:(lia)) as Hn. lia.
Qed.

(* ================================================================== *)
(** ** The permission digits *)

Fixpoint raw_of_pos_app (p : positive) (rest : string) {struct p} :
  OctalString.Raw.of_pos p rest = OctalString.Raw.of_pos p "" +++ rest.
Proof.
  do 3 try destruct p as [p|p|]; try reflexivity; cbn;
    rewrite (raw_of_pos_app p (String _ rest)),
            (raw_of_pos_app p (String _ ""));
    rewrite append_assoc; reflexivity.
Qed.

Lemma oct_step (x : positive) (d : Z) (rest : string) :
  0 <= d < 8 ->
  OctalString.Raw.of_pos (Z.to_pos (8 * Z.pos x + d)) rest =
  OctalString.Raw.of_pos x (String (oct_digit d) rest).
Proof.
  intros Hd.
  assert (d = 0 \/ d = 1 \/ d = 2 \/ d = 3 \/ d = 4 \/ d = 5 \/ d = 6 \/ d = 7)
    as [->|[->|[->|[->|[->|[->|[->| ->]]]]]]] by lia;
    reflexivity.
Qed.

Lemma length_append (s t : string) :
  String.length (s +++ t) = (String.length s + String.length t)%nat.
Proof. induction s as [|a s IH]; simpl; [reflexivity | now rewrite IH]. Qed.

Lemma substring_all (t : string) : substring 0 (String.length t) t = t.
Proof. induction t as [|a t IH]; simpl; [reflexivity | now rewrite IH]. Qed.

Lemma substring_append (s t : string) :
  substring (String.length s) (String.length t) (s +++ t) = t.
Proof. induction s as [|a s IH]; simpl; [apply substring_all | exact IH]. Qed.

Lemma last_chars_append (s t : string) :
  last_chars (String.length t) (s +++ t) = t.
Proof.
  unfold last_chars. rewrite length_append.
  replace (String.length s + String.length t - String.length t)%nat
    with (String.length s) by lia.
  apply substring_append.
Qed.

(** The last three characters of [oct(mode)] are the last three octal
    digits of a mode of four digits or more. *)
Lemma oct_last_three (mode hi d2 d1 d0 : Z) :
  mode = 512 * hi + 64 * d2 + 8 * d1 + d0 ->
  1 <= hi -> 0 <= d2 < 8 -> 0 <= d1 < 8 -> 0 <= d0 < 8 ->
  last_chars 3 (OctalString.of_Z mode) =
  String (oct_digit d2) (String (oct_digit d1) (String (oct_digit d0) "")).
Proof.
  intros Hmode Hhi H2 H1 H0.
  destruct hi as [|ph|ph]; try lia.
  set (x2 := Z.to_pos (8 * Z.pos ph + d2)).
  set (x1 := Z.to_pos (8 * Z.pos x2 + d1)).
  assert (E2 : Z.pos x2 = 8 * Z.pos ph + d2) by (apply Z2Pos.id; lia).
  assert (E1 : Z.pos x1 = 8 * Z.pos x2 + d1) by (apply Z2Pos.id; lia).
  assert (Em : mode = Z.pos (Z.to_pos (8 * Z.pos x1 + d0))).
  { rewrite Z2Pos.id by lia. lia. }
  rewrite Em. unfold OctalString.of_Z, OctalString.of_pos.
  rewrite (oct_step x1 d0 "" H0). unfold x1.
  rewrite (oct_step x2 d1 _ H1). unfold x2.
  rewrite (oct_step ph d2 _ H2).
  rewrite raw_of_pos_app.
  change (String "0" (String "o" (OctalString.Raw.of_pos ph "" +++
            String (oct_digit d2) (String (oct_digit d1) (String (oct_digit d0) "")))))
    with (String "0" (String "o" (OctalString.Raw.of_pos ph "")) +++
            String (oct_digit d2) (String (oct_digit d1) (String (oct_digit d0) ""))).
  apply (last_chars_append
           (String "0" (String "o" (OctalString.Raw.of_pos ph "")))
           (String (oct_digit d2) (String (oct_digit d1) (String (oct_digit d0) "")))).
Qed.

(** X21.  With [show_permissions], the text of an entry whose metadata
    can be read starts with the last three octal digits of its mode in
    brackets: the permission bits, for a mode that carries the bits of
    the file type above them. *)
Theorem format_entry_permissions (path : Path) (s : stat_result)
    (hi d2 d1 d0 : Z) :
  show_permissions config = true ->
  stat path = Ok s ->
  st_mode s = 512 * hi + 64 * d2 + 8 * d1 + d0 ->
  1 <= hi -> 0 <= d2 < 8 -> 0 <= d1 < 8 -> 0 <= d0 < 8 ->
  exists rest,
    _format_entry path =
    String "["
      (String (oct_digit d2)
         (String (oct_digit d1) (String (oct_digit d0) ("] " +++ rest)))).
Proof.
  intros Hp Hstat Hmode Hhi H2 H1 H0.
  unfold _format_entry. rewrite Hp, Hstat. cbn [bind try_except].
  rewrite (oct_last_three (st_mode s) hi d2 d1 d0 Hmode Hhi H2 H1 H0).
  eexists. reflexivity.
Qed.

(* ================================================================== *)
(** ** More on formatting an entry *)

(** X19.  The annotations never change the name: the text of an entry
    is its name (or full path, with the slash of a directory) between
    what the permissions put in front and what the size puts behind;
    nothing is in front without [show_permissions], nothing behind
    without [show_size] or for an entry that is no regular file, and
    neither when the metadata cannot be read. *)
Theorem format_entry_wraps (path : Path) :
  exists before behind,
    _format_entry path = before +++ base_text path +++ behind /\
    (show_permissions config = false \/ (exists e, stat path = Raise e) ->
     before = "") /\
    (show_size config = false \/ is_file path = false \/
     (exists e, stat path = Raise e) -> behind = "").
Proof.
  unfold _format_entry. fold (base_text path).
  set (base := base_text path).
  destruct (stat path) as [s|ex] eqn:Hstat; cbn [bind try_except].
  - set (sized := if show_size config && is_file path
                  then base +++ " (" +++ _format_size (st_size s) +++ ")"
                  else base).
    assert (Hsized : exists behind,
              sized = base +++ behind /\
              (show_size config = false \/ is_file path = false -> behind = "")).
    { subst sized. destruct (show_size config), (is_file path); simpl.
      - exists (" (" +++ _format_size (st_size s) +++ ")").
        split; [reflexivity | intros [?|?]; discriminate].
      - exists "". split; [symmetry; apply append_empty_r | reflexivity].
      - exists "". split; [symmetry; apply append_empty_r | reflexivity].
      - exists "". split; [symmetry; apply append_empty_r | reflexivity]. }
    destruct Hsized as (behind & -> & Hb).
    destruct (show_permissions config).
    + exists ("[" +++ last_chars 3 (OctalString.of_Z (st_mode s)) +++ "] "),
             behind.
      split; [now rewrite !append_assoc|].
      split; [intros [?|[e ?]]; discriminate|].
      intros [?|[?|[e ?]]]; [auto | auto | discriminate].
    + exists "", behind. split; [reflexivity|]. split; [reflexivity|].
      intros [?|[?|[e ?]]]; [auto | auto | discriminate].
  - exists "", "". rewrite append_empty_r.
    destruct (show_size config && is_file path), (show_permissions config);
      auto.
Qed.

End TreeGenerator.

(** ** The process from the arguments on

    [main] of the source, lines 326-368, with the configuration it
    builds and the constructor it calls: the configuration is
    [config_of_args args]; the path is validated; the root line is
    printed; [TreeGenerator(config)] reads [.gitignore] when asked to;
    [generate] runs under the configuration the constructor left.  The
    constructor is called after the root line is printed, so an
    exception of it, like one of [generate], ends the process with that
    line on the standard output.  The traceback that Python writes for
    an uncaught exception is not part of [stderr] here. *)
Definition run_main (fnmatch : string -> string -> bool)
    (lower : string -> string) (fs : FileSystem) (cwd : Path)
    (strip : string -> string) (gitignore : option (result (list string)))
    (resolve : string -> Path) (exists_ : Path -> bool)
    (fuel : nat) (args : Args) : process :=
  let config := config_of_args args in
  let root_path := resolve (arg_path args) in
  if negb (exists_ root_path) then
    {| stdout := "";
       stderr := print "" ("Error: Path '" +++ arg_path args +++
                           "' does not exist");
       status := Exit 1 |}
  else if negb (is_dir fs root_path) then
    {| stdout := "";
       stderr := print "" ("Error: Path '" +++ arg_path args +++
                           "' is not a directory");
       status := Exit 1 |}
  else
    let out := print "" (path_str root_path +++ "/") in
    match TreeGenerator_new strip gitignore config with
    | Raise e => {| stdout := out; stderr := ""; status := Uncaught e |}
    | Ok config =>
        match generate fnmatch lower fs cwd config fuel root_path "" 0 fresh with
        | Raise e => {| stdout := out; stderr := ""; status := Uncaught e |}
        | Ok (tree, _, generator) =>
            let out := if String.eqb tree "" then out else print out tree in
            let out := print out "" in
            let out :=
              out +++ str_of_Z (dir_count generator) +++ " directories" in
            let out :=
              if negb (dirs_only config)
              then out +++ ", " +++ str_of_Z (file_count generator) +++ " files"
              else out in
            {| stdout := print out ""; stderr := ""; status := Exit 0 |}
        end
    end.

(** When the constructor returns, the process is [main] under the
    configuration the constructor left. *)
Lemma run_main_constructed (fnmatch : string -> string -> bool)
    (lower : string -> string) (fs : FileSystem) (cwd : Path)
    (strip : string -> string) (gitignore : option (result (list string)))
    (resolve : string -> Path) (exists_ : Path -> bool)
    (fuel : nat) (args : Args) (config : TreeConfig) :
  TreeGenerator_new strip gitignore (config_of_args args) = Ok config ->
  run_main fnmatch lower fs cwd strip gitignore resolve exists_ fuel args =
  main fnmatch lower fs cwd config resolve exists_ fuel args.
Proof.
  intros H. unfold run_main, main. rewrite H. reflexivity.
Qed.




(* ================================================================== *)
(** ** Runs on concrete file systems *)

(** C7: [/p/build/out] is excluded by the pattern [build/out], which
    matches its path below [/p] and not its base name; none of the three
    rules on the base name applies. *)
Lemma three_rules_miss_relative_path :
  _should_ignore glob ["p"] gitignore_config ["p"; "build"; "out"] = Ok true /\
  three_rules glob gitignore_config ["p"; "build"; "out"] = false.
Proof. split; reflexivity. Qed.

Lemma should_ignore_rules_witness :
  relative_to ["p"; "build"; "out"] ["p"] = Ok ["build"; "out"] /\
  _should_ignore glob ["p"] gitignore_config ["p"; "build"; "out"] =
  Ok (hidden_rule gitignore_config ["p"; "build"; "out"]
      || custom_rule glob gitignore_config ["p"; "build"; "out"]
      || gitignore_rule glob gitignore_config ["p"; "build"; "out"]
           ["build"; "out"]).
Proof.
  split; [reflexivity|].
  apply (@should_ignore_rules glob ["p"] gitignore_config
           ["p"; "build"; "out"] ["build"; "out"]).
  reflexivity.
Defined.

(** C4: the tree under [/etc] is rendered from the working directory
    [/home/u/proj], whose [.gitignore] holds [build/out]; the policy
    raises on the first entry. *)
Theorem should_ignore_raises_outside_cwd :
  _should_ignore glob ["home"; "u"; "proj"] gitignore_config ["etc"; "hosts"]
  = Raise ValueError.
Proof. reflexivity. Qed.

(** C8: an input/output error of the listing is not caught. *)
Lemma get_entries_io_error_propagates :
  fs_listdir unreadable_fs ["r"] = Raise OSError /\
  _get_entries glob ascii_lower unreadable_fs [] default_config ["r"] = Raise OSError.
Proof. split; reflexivity. Qed.

Lemma get_entries_permission_error_witness :
  fs_listdir unreadable_fs ["s"] = Raise PermissionError /\
  _get_entries glob ascii_lower unreadable_fs [] default_config ["s"] = Ok [].
Proof.
  split; [reflexivity|].
  apply (@get_entries_permission_error glob ascii_lower unreadable_fs [] default_config ["s"]).
  reflexivity.
Defined.

(** C5: with [--sort-by modified] the time stamp of a dangling link
    cannot be read; the failure leaves the sort, [_get_entries] and
    [generate]. *)
Theorem sort_key_failure_propagates :
  stat dangling_fs ["r"; "gone"] = Raise FileNotFoundError /\
  _get_entries glob ascii_lower dangling_fs ["r"] modified_config ["r"]
    = Raise FileNotFoundError /\
  generate glob ascii_lower dangling_fs ["r"] modified_config 10 ["r"] "" 0 fresh
    = Raise FileNotFoundError.
Proof. repeat split; reflexivity. Qed.

Lemma get_entries_dirs_first_witness :
  exists ds fs,
    [["r"; "sub"]; ["r"; "b.txt"]; ["r"; "a.txt"]] = ds ++ fs /\
    Forall (fun e => is_dir scenario_fs e = true) ds /\
    Forall (fun e => is_file scenario_fs e = true) fs /\
    sorted_by (_get_sort_key ascii_lower scenario_fs size_reverse_config) true ds /\
    sorted_by (_get_sort_key ascii_lower scenario_fs size_reverse_config) true fs /\
    (forall vis,
       visible glob scenario_fs ["r"] size_reverse_config ["r"] = Ok vis ->
       Permutation ds (filter (is_dir scenario_fs) vis) /\
       Permutation fs (filter (is_file scenario_fs) vis)) /\
    Forall (fun d => _get_sort_key ascii_lower scenario_fs size_reverse_config d
                     = Ok (KeyNum 0)) ds /\
    StronglySorted (stat_order scenario_fs st_size true) fs.
Proof.
  apply (get_entries_dirs_first glob ascii_lower scenario_fs ["r"] size_reverse_config
           ["r"] [["r"; "sub"]; ["r"; "b.txt"]; ["r"; "a.txt"]]);
    reflexivity.
Defined.

Lemma depth_limit_witness :
  generate glob ascii_lower scenario_fs ["r"] depth1_config 1 ["r"; "sub"] PIPE 1 fresh
    = Ok ("", [], fresh) /\
  match generate glob ascii_lower scenario_fs ["r"] depth1_config 5 ["r"] "" 0 fresh with
  | Ok (_, lines, _) =>
      Forall (fun L => exists below,
                  ln_dir L = ["r"] ++ below /\
                  Z.of_nat (List.length below) = ln_depth L /\
                  ln_depth L < 1) lines
  | Raise _ => False
  end.
Proof.
  split.
  - apply (proj1 (depth_limit glob ascii_lower scenario_fs ["r"] depth1_config)).
    reflexivity.
  - destruct (generate glob ascii_lower scenario_fs ["r"] depth1_config 5 ["r"] "" 0 fresh)
      as [[[text lines] st']|e] eqn:H.
    + apply (proj2 (depth_limit glob ascii_lower scenario_fs ["r"] depth1_config)
               1 5%nat ["r"] "" fresh text lines st'); [reflexivity | exact H].
    + vm_compute in H. discriminate.
Defined.

Lemma file_limit_witness :
  match generate glob ascii_lower nested_fs ["r"] limit1_config 5 ["r"] "" 0 fresh with
  | Ok (_, lines, st') =>
      count_lines (is_file_line nested_fs) lines <= 1 /\
      file_count st' = count_lines (is_file_line nested_fs) lines /\
      exists es ms,
        lines = es ++ ms /\
        Forall (fun L => ln_entry L <> None) es /\
        Forall (fun M => ln_entry M = None /\
                         ln_connector M = ELBOW /\
                         ln_text M = ln_prefix M +++ ELBOW +++ LIMIT_TEXT) ms /\
        StronglySorted (fun a b => ln_depth b < ln_depth a) ms /\
        NoDup (map ln_dir ms)
  | Raise _ => False
  end.
Proof.
  destruct (generate glob ascii_lower nested_fs ["r"] limit1_config 5 ["r"] "" 0 fresh)
    as [[[text lines] st']|e] eqn:H.
  - apply (file_limit glob ascii_lower nested_fs ["r"] limit1_config 1 5%nat ["r"] "" 0
             text lines st'); [reflexivity | lia | exact H].
  - vm_compute in H. discriminate.
Defined.

Lemma connectors_witness :
  match generate glob ascii_lower nested_fs ["r"] limit1_config 5 ["r"] "" 0 fresh with
  | Ok (text, lines, _) =>
      text = String.concat NL (map ln_text lines) /\
      tee_then_elbow (own_lines 0 lines) /\
      Forall (fun L => forall e, ln_entry L = Some e ->
                exists all,
                  _get_entries glob ascii_lower nested_fs ["r"] limit1_config (ln_dir L)
                    = Ok all /\
                  0 <= ln_index L /\
                  nth_error all (Z.to_nat (ln_index L)) = Some e /\
                  ln_connector L =
                    (if ln_index L =? Z.of_nat (List.length all) - 1
                     then ELBOW else TEE) /\
                  ln_text L =
                    ln_prefix L +++ ln_connector L +++
                    _format_entry nested_fs limit1_config e)
             lines /\
      Forall (fun C =>
                (ln_dir C = ["r"] /\ ln_prefix C = "" /\ ln_depth C = 0) \/
                exists P all,
                  In P lines /\
                  ln_entry P = Some (ln_dir C) /\
                  _get_entries glob ascii_lower nested_fs ["r"] limit1_config (ln_dir P)
                    = Ok all /\
                  ln_depth C = ln_depth P + 1 /\
                  ln_prefix C =
                    ln_prefix P +++
                    (if ln_index P =? Z.of_nat (List.length all) - 1
                     then BLANK else PIPE))
             lines
  | Raise _ => False
  end.
Proof.
  destruct (generate glob ascii_lower nested_fs ["r"] limit1_config 5 ["r"] "" 0 fresh)
    as [[[text lines] st']|e] eqn:H.
  - exact (connectors glob ascii_lower nested_fs ["r"] limit1_config 5%nat ["r"] "" 0
             fresh text lines st' H).
  - vm_compute in H. discriminate.
Defined.

Lemma only_dirs_and_files_witness :
  Forall (fun e => is_dir dangling_fs e || is_file dangling_fs e = true)
         [["r"; "a.txt"]] /\
  match generate glob ascii_lower dangling_fs ["r"] default_config 5 ["r"] "" 0 fresh with
  | Ok (_, lines, st') =>
      Forall (fun L => forall e, ln_entry L = Some e ->
                is_dir dangling_fs e || is_file dangling_fs e = true) lines /\
      file_count st' =
        file_count fresh + count_lines (is_file_line dangling_fs) lines /\
      dir_count st' =
        dir_count fresh + count_lines (is_dir_line dangling_fs) lines
  | Raise _ => False
  end.
Proof.
  split.
  - apply (proj1 (only_dirs_and_files glob ascii_lower dangling_fs ["r"] default_config)
             ["r"] [["r"; "a.txt"]]).
    reflexivity.
  - destruct (generate glob ascii_lower dangling_fs ["r"] default_config 5 ["r"] "" 0 fresh)
      as [[[text lines] st']|e] eqn:H.
    + exact (proj2 (only_dirs_and_files glob ascii_lower dangling_fs ["r"] default_config)
               5%nat ["r"] "" 0 fresh text lines st' H).
    + vm_compute in H. discriminate.
Defined.

Lemma symlink_dir_not_followed_witness :
  let g := generate glob ascii_lower link_fs ["r"] default_config 4 in
  let here := entry_line link_fs default_config ["r"] "" 0 2 0 ["r"; "link"] in
  generate_loop link_fs default_config g ["r"] "" 0 2 0
    [["r"; "link"]; ["r"; "z.txt"]] fresh =
    ('(output, after, st') <-
       generate_loop link_fs default_config g ["r"] "" 0 2 (0 + 1)
         [["r"; "z.txt"]] {| file_count := 0; dir_count := 0 + 1 |} ;;
     Ok (ln_text here :: output, here :: after, st')) /\
  exists annotation,
    ln_text here =
    "" +++ ln_connector here +++ annotation +++ "link" +++ "/".
Proof.
  apply (symlink_dir_not_followed link_fs default_config
           (generate glob ascii_lower link_fs ["r"] default_config 4)
           ["r"] "" 0 2 0 ["r"; "link"] [["r"; "z.txt"]] fresh);
    reflexivity.
Defined.

(* ================================================================== *)
(** ** The scenarios of the specification *)

Example round_trip_scenario :
  rendered (generate glob ascii_lower scenario_fs ["r"] default_config 5
              ["r"] "" 0 fresh) =
  Ok ([Some ["r"; "sub"]; Some ["r"; "sub"; "c.txt"];
       Some ["r"; "a.txt"]; Some ["r"; "b.txt"]],
      {| file_count := 3; dir_count := 1 |}).
Proof. reflexivity. Qed.

Example round_trip_text :
  match generate glob ascii_lower scenario_fs ["r"] default_config 5
          ["r"] "" 0 fresh with
  | Ok (text, _, _) =>
      text = TEE +++ "sub/" +++ NL +++
             PIPE +++ ELBOW +++ "c.txt" +++ NL +++
             TEE +++ "a.txt" +++ NL +++
             ELBOW +++ "b.txt"
  | Raise _ => False
  end.
Proof. reflexivity. Qed.

Example size_sort_scenario :
  _get_entries glob ascii_lower scenario_fs ["r"] files_by_size_config ["r"] =
  Ok [["r"; "a.txt"]; ["r"; "b.txt"]].
Proof. reflexivity. Qed.

Example limit_scenario :
  rendered (generate glob ascii_lower flat_fs ["r"] limit3_config 5
              ["r"] "" 0 fresh) =
  Ok ([Some ["r"; "f1"]; Some ["r"; "f2"]; Some ["r"; "f3"]; None],
      {| file_count := 3; dir_count := 0 |}).
Proof. reflexivity. Qed.

Example hidden_file_scenario :
  _get_entries glob ascii_lower hidden_fs ["r"] default_config ["r"] =
    Ok [["r"; "visible.txt"]] /\
  _get_entries glob ascii_lower hidden_fs ["r"] all_config ["r"] =
    Ok [["r"; ".secret"]; ["r"; "visible.txt"]].
Proof. split; reflexivity. Qed.

Example annotated_entry :
  _format_entry scenario_fs annotated_config ["r"; "b.txt"] =
    "[644] b.txt (   2.0 KB)" /\
  _format_entry dangling_fs annotated_config ["r"; "gone"] = "gone".
Proof. split; reflexivity. Qed.

(* ================================================================== *)
(** ** From the command line to the ignore policy *)

(** X20.  A line of [.gitignore] that is neither blank nor a comment
    once stripped excludes, in a run with [--gitignore], every entry
    below the working directory whose base name matches it (trailing
    slashes apart): the configuration that [main] builds from the
    arguments and that the constructor completes makes [_should_ignore]
    answer [True] for it. *)
Theorem gitignore_line_excludes (fnmatch : string -> string -> bool)
    (strip : string -> string) (cwd : Path) (args : Args)
    (lines : list string) (line : string) (path : Path)
    (rel : list string) :
  arg_use_gitignore args = true ->
  In line lines ->
  strip line <> "" ->
  startswith (strip line) "#" = false ->
  fnmatch (name path) (rstrip "/" (strip line)) = true ->
  relative_to path cwd = Ok rel ->
  _should_ignore fnmatch cwd
    (TreeGenerator_init strip (Some lines) (config_of_args args)) path
  = Ok true.
Proof.
  intros Hg Hin Hne Hc Hm Hrel.
  apply should_ignore_pattern_hit with (rel := rel) (p := strip line);
    try assumption.
  - unfold TreeGenerator_init. simpl. rewrite Hg. exact Hg.
  - unfold TreeGenerator_init. simpl. rewrite Hg. simpl.
    now apply load_lines_loads.
Qed.

(* ================================================================== *)
(** ** Runs of the further properties *)

Lemma should_ignore_without_slash_witness :
  _should_ignore glob ["home"; "u"; "proj"] plain_gitignore_config
    ["etc"; "cache.pyc"] =
  Ok (three_rules glob plain_gitignore_config ["etc"; "cache.pyc"]).
Proof.
  apply (should_ignore_without_slash glob ["home"; "u"; "proj"]
           plain_gitignore_config ["etc"; "cache.pyc"]).
  right. repeat constructor.
Defined.

Lemma gitignore_order_irrelevant_witness :
  gitignore_loop glob ["p"] ["p"; "build"; "out"] ["*.pyc"; "build/out"] =
  gitignore_loop glob ["p"] ["p"; "build"; "out"]
    ["build/out"; "*.pyc"; "build/out"].
Proof.
  apply (gitignore_order_irrelevant glob ["p"] ["p"; "build"; "out"]
           ["build"; "out"]).
  - reflexivity.
  - intros p. simpl. tauto.
Defined.

Lemma get_entries_type_filter_witness :
  Permutation [["r"; "sub"]]
    (filter (if dirs_only both_filters_config
             then is_dir scenario_fs else is_file scenario_fs)
            [["r"; "b.txt"]; ["r"; "sub"]; ["r"; "a.txt"]]) /\
  sorted_by (_get_sort_key ascii_lower scenario_fs both_filters_config)
    (reverse_sort both_filters_config) [["r"; "sub"]].
Proof.
  apply (get_entries_type_filter glob ascii_lower scenario_fs ["r"]
           both_filters_config ["r"]);
    [left; reflexivity | reflexivity | reflexivity].
Defined.

Lemma get_entries_membership_witness :
  In ["r"; "a.txt"] [["r"; "sub"]; ["r"; "a.txt"]; ["r"; "b.txt"]] <->
  exists child,
    In child ["b.txt"; "sub"; "a.txt"] /\
    ["r"; "a.txt"] = joinpath ["r"] child /\
    _should_ignore glob ["r"] default_config ["r"; "a.txt"] = Ok false /\
    type_admitted scenario_fs default_config ["r"; "a.txt"] = true.
Proof.
  apply (get_entries_membership glob ascii_lower scenario_fs ["r"]
           default_config ["r"]); reflexivity.
Defined.

Lemma rendered_not_ignored_witness :
  match generate glob ascii_lower hidden_fs ["r"] default_config 5
          ["r"] "" 0 fresh with
  | Ok (_, lines, _) =>
      Forall (fun L => forall e, ln_entry L = Some e ->
                _should_ignore glob ["r"] default_config e = Ok false /\
                (show_hidden default_config = false ->
                 startswith (name e) "." = false) /\
                existsb (glob (name e)) (custom_ignore default_config) = false)
             lines
  | Raise _ => False
  end.
Proof.
  destruct (generate glob ascii_lower hidden_fs ["r"] default_config 5
              ["r"] "" 0 fresh) as [[[text lines] st']|e] eqn:H.
  - exact (rendered_not_ignored glob ascii_lower hidden_fs ["r"]
             default_config 5%nat ["r"] "" 0 fresh text lines st' H).
  - vm_compute in H. discriminate.
Defined.

Lemma generate_unreadable_or_empty_witness :
  generate glob ascii_lower unreadable_fs ["s"] default_config 1
    ["s"] "" 0 fresh = Ok ("", [], fresh).
Proof.
  apply (generate_unreadable_or_empty glob ascii_lower unreadable_fs ["s"]
           default_config 0%nat ["s"] "" 0 fresh).
  left. reflexivity.
Defined.

Lemma siblings_in_listing_order_witness :
  match generate glob ascii_lower flat_fs ["r"] limit3_config 5
          ["r"] "" 0 fresh with
  | Ok (_, lines, _) =>
      exists entries shown rest,
        _get_entries glob ascii_lower flat_fs ["r"] limit3_config ["r"]
          = Ok entries /\
        entries = shown ++ rest /\
        map ln_entry (own_lines 0 lines) =
          map Some shown ++
          (match rest with [] => [] | _ :: _ => [None] end) /\
        (max_files limit3_config = None -> rest = [])
  | Raise _ => False
  end.
Proof.
  destruct (generate glob ascii_lower flat_fs ["r"] limit3_config 5
              ["r"] "" 0 fresh) as [[[text lines] st']|e] eqn:H.
  - apply (siblings_in_listing_order glob ascii_lower flat_fs ["r"]
             limit3_config 5%nat ["r"] "" 0 fresh text lines st' H).
    reflexivity.
  - vm_compute in H. discriminate.
Defined.

Lemma limit_line_exact_witness :
  match generate glob ascii_lower flat_fs ["r"] limit3_config 5
          ["r"] "" 0 fresh with
  | Ok (_, lines, _) => count_lines (is_file_line flat_fs) lines = 3
  | Raise _ => False
  end.
Proof.
  destruct (generate glob ascii_lower flat_fs ["r"] limit3_config 5
              ["r"] "" 0 fresh) as [[[text lines] st']|e] eqn:H.
  - apply (limit_line_exact glob ascii_lower flat_fs ["r"] limit3_config
             3 5%nat ["r"] "" 0 text lines st');
      [reflexivity | lia | exact H |].
    vm_compute in H. injection H as _ <- _.
    eexists. split; [do 3 right; left; reflexivity | reflexivity].
  - vm_compute in H. discriminate.
Defined.

Lemma dirs_only_block_witness :
  match generate glob ascii_lower scenario_fs ["r"] dirs_only_config 5
          ["r"] "" 0 fresh with
  | Ok (_, lines, st') =>
      Forall (fun L => exists e,
                ln_entry L = Some e /\ is_dir scenario_fs e = true) lines /\
      file_count st' = file_count fresh
  | Raise _ => False
  end.
Proof.
  destruct (generate glob ascii_lower scenario_fs ["r"] dirs_only_config 5
              ["r"] "" 0 fresh) as [[[text lines] st']|e] eqn:H.
  - apply (dirs_only_block glob ascii_lower scenario_fs ["r"]
             dirs_only_config 5%nat ["r"] "" 0 fresh text lines st');
      [reflexivity | exact H].
  - vm_compute in H. discriminate.
Defined.

Lemma files_only_block_witness :
  match generate glob ascii_lower scenario_fs ["r"] files_only_config 5
          ["r"] "" 0 fresh with
  | Ok (_, lines, st') =>
      Forall (fun L => ln_dir L = ["r"] /\ ln_prefix L = "" /\
                       ln_depth L = 0) lines /\
      dir_count st' = dir_count fresh
  | Raise _ => False
  end.
Proof.
  destruct (generate glob ascii_lower scenario_fs ["r"] files_only_config 5
              ["r"] "" 0 fresh) as [[[text lines] st']|e] eqn:H.
  - apply (files_only_block glob ascii_lower scenario_fs ["r"]
             files_only_config 5%nat ["r"] "" 0 fresh text lines st');
      [reflexivity | reflexivity | exact H].
  - vm_compute in H. discriminate.
Defined.

Lemma counters_count_entry_lines_witness :
  match generate glob ascii_lower nested_fs ["r"] limit1_config 5
          ["r"] "" 0 fresh with
  | Ok (_, lines, st') =>
      file_count fresh <= file_count st' /\
      dir_count fresh <= dir_count st' /\
      (file_count st' - file_count fresh) + (dir_count st' - dir_count fresh) =
        count_lines is_entry_line lines
  | Raise _ => False
  end.
Proof.
  destruct (generate glob ascii_lower nested_fs ["r"] limit1_config 5
              ["r"] "" 0 fresh) as [[[text lines] st']|e] eqn:H.
  - exact (counters_count_entry_lines glob ascii_lower nested_fs ["r"]
             limit1_config 5%nat ["r"] "" 0 fresh text lines st' H).
  - vm_compute in H. discriminate.
Defined.

Lemma prefix_segments_witness :
  match generate glob ascii_lower scenario_fs ["r"] default_config 5
          ["r"] "" 0 fresh with
  | Ok (_, lines, _) =>
      Forall (fun L => exists segs,
                ln_prefix L = "" +++ segs /\
                segments (Z.to_nat (ln_depth L - 0)) segs) lines
  | Raise _ => False
  end.
Proof.
  destruct (generate glob ascii_lower scenario_fs ["r"] default_config 5
              ["r"] "" 0 fresh) as [[[text lines] st']|e] eqn:H.
  - exact (prefix_segments glob ascii_lower scenario_fs ["r"]
             default_config 5%nat ["r"] "" 0 fresh text lines st' H).
  - vm_compute in H. discriminate.
Defined.

Lemma main_summary_witness :
  match generate glob ascii_lower scenario_fs ["r"] default_config 5
          ["r"] "" 0 fresh with
  | Ok (_, lines, _) =>
      stdout (main glob ascii_lower scenario_fs ["r"] default_config
                (fun _ => ["r"]) (fun _ => true) 5 plain_args) =
      path_str ["r"] +++ "/" +++ NL +++
      (match lines with
       | [] => ""
       | _ :: _ => String.concat NL (map ln_text lines) +++ NL
       end) +++
      NL +++
      str_of_Z (count_lines (is_dir_line scenario_fs) lines) +++
      " directories" +++
      (if dirs_only default_config then ""
       else ", " +++ str_of_Z (count_lines (is_file_line scenario_fs) lines)
            +++ " files") +++
      NL
  | Raise _ => False
  end.
Proof.
  destruct (generate glob ascii_lower scenario_fs ["r"] default_config 5
              ["r"] "" 0 fresh) as [[[text lines] st']|e] eqn:H.
  - apply (main_summary glob ascii_lower scenario_fs ["r"] default_config
             (fun _ => ["r"]) (fun _ => true) 5%nat plain_args
             text lines st'); [reflexivity | reflexivity | exact H].
  - vm_compute in H. discriminate.
Defined.

Lemma format_size_bytes_witness :
  _format_size 10 = pad_left 6 (str_of_Z 10 +++ ".0") +++ " B".
Proof. apply (format_size_bytes 10). lia. Defined.

Lemma format_size_unit_witness :
  exists (k : nat) (t : Z),
    (k <= 5)%nat /\
    _format_size 1500000 =
      pad_left 6 (str_of_Z (t / 10) +++ "." +++ str_of_Z (t mod 10)) +++
      " " +++ nth k UNITS "" /\
    (k = 0%nat \/ 1024 ^ Z.of_nat k <= 1500000) /\
    (k = 5%nat \/ 1500000 < 1024 ^ (Z.of_nat k + 1)) /\
    2 * Z.abs (10 * 1500000 - t * 1024 ^ Z.of_nat k) <= 1024 ^ Z.of_nat k.
Proof. apply (format_size_unit 1500000). split; [lia | reflexivity]. Defined.

Lemma gitignore_line_excludes_witness :
  _should_ignore glob ["r"]
    (TreeGenerator_init ascii_strip (Some gitignore_lines)
       (config_of_args gitignore_args))
    ["r"; "build"]
  = Ok true.
Proof.
  apply (gitignore_line_excludes glob ascii_strip ["r"] gitignore_args
           gitignore_lines ("build/" +++ NL) ["r"; "build"] ["build"]).
  - reflexivity.
  - simpl. auto.
  - discriminate.
  - reflexivity.
  - reflexivity.
  - reflexivity.
Defined.

(** The same run end to end: the summary of the round-trip scenario. *)
Example main_round_trip :
  main glob ascii_lower scenario_fs ["r"] default_config
    (fun _ => ["r"]) (fun _ => true) 5 plain_args =
  {| stdout :=
       "/r/" +++ NL +++
       TEE +++ "sub/" +++ NL +++
       PIPE +++ ELBOW +++ "c.txt" +++ NL +++
       TEE +++ "a.txt" +++ NL +++
       ELBOW +++ "b.txt" +++ NL +++
       NL +++
       "1 directories, 3 files" +++ NL;
     stderr := "";
     status := Exit 0 |}.
Proof. reflexivity. Qed.

(** The whole process on the same scenario, without [--gitignore]: a
    [.gitignore] that cannot be read is not looked at. *)
Example run_main_round_trip :
  run_main glob ascii_lower scenario_fs ["r"] ascii_strip (Some (Raise OSError))
    (fun _ => ["r"]) (fun _ => true) 5 plain_args =
  {| stdout :=
       "/r/" +++ NL +++
       TEE +++ "sub/" +++ NL +++
       PIPE +++ ELBOW +++ "c.txt" +++ NL +++
       TEE +++ "a.txt" +++ NL +++
       ELBOW +++ "b.txt" +++ NL +++
       NL +++
       "1 directories, 3 files" +++ NL;
     stderr := "";
     status := Exit 0 |}.
Proof. reflexivity. Qed.

(** With [--gitignore] and a directory named [.gitignore], [open] raises
    after the root line is printed, and no tree and no summary follow. *)
Example run_main_gitignore_is_directory :
  run_main glob ascii_lower scenario_fs ["r"] ascii_strip (Some (Raise OSError))
    (fun _ => ["r"]) (fun _ => true) 5 gitignore_args =
  {| stdout := "/r/" +++ NL; stderr := ""; status := Uncaught OSError |}.
Proof. reflexivity. Qed.

(** A path that is no directory ends the process before [.gitignore] is
    opened. *)
Example run_main_not_a_directory :
  run_main glob ascii_lower scenario_fs ["r"] ascii_strip (Some (Raise OSError))
    (fun _ => ["r"; "a.txt"]) (fun _ => true) 5 gitignore_args =
  {| stdout := "";
     stderr := "Error: Path '/r' is not a directory" +++ NL;
     status := Exit 1 |}.
Proof. reflexivity. Qed.

Example load_gitignore_example :
  gitignore_patterns
    (TreeGenerator_init ascii_strip (Some gitignore_lines)
       (config_of_args gitignore_args)) = ["build/"].
Proof. reflexivity. Qed.

Lemma format_entry_permissions_witness :
  exists rest,
    _format_entry scenario_fs permissions_config ["r"; "a.txt"] =
    String "["
      (String (oct_digit 6)
         (String (oct_digit 4) (String (oct_digit 4) ("] " +++ rest)))).
Proof.
  apply (format_entry_permissions scenario_fs permissions_config
           ["r"; "a.txt"]
           {| st_size := 10; st_mtime := 3; st_mode := 33188 |} 64 6 4 4);
    solve [reflexivity | lia].
Defined.
